(* ===== verification/_CoqProject ===== *)
-Q . S2P
Prelude.v
PyLoop.v
Collision.v
Shot.v
Character.v
Player.v
Enemy.v
Game.v
GameSafety.v
Typing.v
Scenarios.v
Session.v
Rendering.v
Menu.v
