(* ===== verification/Prelude.v ===== *)
(** * Armageddon (Jesus-Shooter): a verification development of src/main.py

    The program is one Python file, [src/main.py], a pygame shoot-em-up.
    Its parts, leaf first, and the file of this library that models each:

    - [Prelude.v] (this file): the Python runtime the code relies on.
      Exceptions are values of [py_error] in the result monad [res]
      (notation [let? x := m in k], scope [py_scope]); object identity is
      the class [PyObj] (an object's [id]); [list.remove], the [in]
      operator and in-place mutation of an object held in a list are
      [py_remove], [py_in] and [py_update].
    - [PyLoop.v]: Python's [for x in lst] over a list that the body
      mutates (the list iterator reads [lst[i]] and stops when [i] reaches
      the current length).  [py_for] is that loop with fuel; the theorems
      show that the fuel [length lst] is enough, and that under a local
      specification of the body ("replace or delete the current element")
      the loop computes [visit_ref], a structural reference in which the
      element right after a deleted one is passed over unvisited.
    - [Collision.v]: [pygame.mask] as a bitmap [Mask] with [overlap]
      (pygame's overlap test restricted to the intersection of the two
      rectangles), the images of lines 12-24 as [Img], the asset provider
      as the class [Assets], objects that carry a position and a mask as
      the class [Sprite], and [collide] (lines 144-147).
    - [Shot.v]: class [Shot] (lines 27-44).
    - [Character.v]: class [Character] (lines 47-90): [cooldown],
      [shoot], and the base [move_shot] loop.
    - [Player.v]: class [Player] (lines 93-125), with its overriding
      [move_shot] over the list of enemies and [health_bar].
    - [Enemy.v]: class [Enemy] (lines 128-141), the catalog [ENEMY_MAP]
      as a [gmap string], construction failing with [KeyError].
    - [Game.v]: [main] (lines 150-252): the session state as [World]
      (the local variables of [main], the random draws [rng] and the
      next object identity), one block of the loop body per definition
      ([respawn], [check_lost], [spawn_wave], [handle_keys],
      [enemies_step], then [Player.move_shot]), one iteration of
      [while run] as [main_frame], the loop as [main_loop].
    - [GameSafety.v]: [reachable] (rule induction from [init_world]
      through [main_frame]) and the invariant [world_ok] of the session.
    - [Typing.v]: the typing invariant [world_typed] (the images of
      every object agree with its kind, every shot carries its owner's
      shot image, the player's health stays at most [max_health = 100]).
    - [Scenarios.v]: whole sessions evaluated in the kernel.
    - [Session.v]: the state machine of the specification (section 4.7)
      as the step relation [phase_step] on [phase], and the abstraction
      [phase_of] of a state of [main].
    - [Rendering.v]: the drawing code ([Shot.draw], [Character.draw],
      [Player.health_bar], [Player.draw], [redraw_window], lines 34-35,
      59-62, 114-125, 172-192) as functions returning the list of window
      operations ([Blit], [Rect], [Update]) they perform, in order; text
      widths come from the font provider, the class [Fonts].
    - [Menu.v]: [main_menu] (lines 255-273): the menu's [run] flag, the
      shared random generator, one batch of events per iteration, and a
      session ([main]) per click, run by [main_loop] from [init_world].

    How the parts interact: [main_frame] calls the methods of the
    classes on the objects of the [World]; an enemy's [move_shot] damages
    the player through the class [Target] (get and set the health),
    the player's [move_shot] removes enemies from the list [enemies];
    [collide] is used through the class [Sprite] by both; each frame
    draws the state it starts from ([redraw_window]); the menu starts a
    fresh session per click.

    The theorems, by group (claim numbers C1-C39 in order of weight):
    - safety and invariants of the loop (GameSafety.v, Typing.v): a
      frame from a reachable state raises only [SystemExit] on quit and
      keeps [world_ok] (distinct live identities, cooldowns in range, the
      wave length formula, the game-over count) and [world_typed]; the
      loop over [enemies[:]] visits each enemy of the copy exactly once
      (one random draw each); once the lives are gone the loop stops
      within [3 * fps + 1] frames;
    - refinement (Session.v): every frame of [main] from a reachable
      state is a step of the specification's session machine, whose
      transitions carry the resurrection guards (play on only while a
      resurrection is left, lose exactly when none is); the countdown
      frames suspend gameplay, and the frame that ends the countdown
      still plays a whole gameplay frame;
    - the list loops (PyLoop.v, Character.v, Player.v): each Python loop
      that removes from the list it iterates equals the structural
      reference [visit_ref], never raises, and refines the
      specification's "each element evaluated and removed at most once"
      ([at_most_once]); the shot after a removed one is passed over, so
      the stronger "exactly once" fails; the inner loop of
      [Player.move_shot] removes only enemies the shot overlaps, and of
      [n] that all overlap it removes [(n + 1) / 2];
    - the blocks of a frame (Game.v) and the classes (Shot.v,
      Character.v, Enemy.v, Collision.v): wave spawning, key handling
      within bounds and its round trip, enemy resolution (the enemy
      removed is the one resolved), the last life, fire rate and
      cooldown, shot lifetime, the enemy catalog, collision as a screen
      point opaque in both sprites, and bounding boxes;
    - drawing and menu (Rendering.v, Menu.v, Player.v): every live
      object is drawn exactly once per frame, the GAME OVER label exactly
      when [lost], the labels print the counters so that they read back,
      the health bar is never wider than its frame but has a negative
      width exactly when the health is negative; the menu plays, on the
      scripts of the clicks up to the first [QUIT], exactly the sessions
      [run_sessions] runs one after the other from [init_world] with the
      shared generator, each ending in a reachable state of [main];
    - concrete sessions (Scenarios.v, examples only): the end-to-end
      scenario of the specification, a reachable state whose health bar
      has negative width, a wave spawned in the frame that ends the game.

    Fuel: [py_for] gets [length lst] iterations, enough because no loop
    body of the program appends to the list it iterates
    ([py_for_no_fuel_out]); [main_loop] and [main_menu] need no fuel:
    they run once per element of their list of inputs, so liveness is
    stated as a bound on the number of frames.  A click of the menu with
    no session script left is the model's [OutOfFuel].

    Each file opens with a comment saying what it holds and which
    theorems it proves.  What is not modelled: [clock.tick] (it only
    waits), the pixels that [blit], [draw.rect] and [font.render]
    produce (the drawing is modelled as the sequence of calls), the
    window and font set-up (lines 5, 8-9), [pygame.quit()].  Randomness
    ([random.randrange], [random.choice]) is an oracle: a list of
    integers consumed in the order of the calls.  Images and fonts are
    external assets: every theorem is stated for any [Assets] and
    [Fonts] instance, and the concrete witnesses use solid rectangles of
    the sizes in [demo_assets] and the widths of [demo_fonts]. *)

From stdpp Require Export base list.
From Stdlib Require Export ZArith Lia.

Declare Scope py_scope.
Delimit Scope py_scope with py.
Local Open Scope Z_scope.

(** ** Python exceptions and the result monad *)

(** The exceptions the modelled code can raise: [ValueError] from
    [list.remove] of an absent element, [KeyError] from a dict lookup,
    [SystemExit] from [quit()].  [OutOfFuel] is not a Python exception:
    it is what a fuelled loop returns when its fuel runs out, and the
    loop theorems show that it never happens. *)
Inductive py_error := ValueError | KeyError | SystemExit | OutOfFuel.

Inductive res (A : Type) : Type :=
| Ok (a : A)
| Err (e : py_error).
Arguments Ok {A} a.
Arguments Err {A} e.

Definition res_bind {A B} (m : res A) (k : A -> res B) : res B :=
  match m with
  | Ok a => k a
  | Err e => Err e
  end.

Notation "'let?' x := m 'in' k" := (res_bind m (fun x => k))
  (at level 10, x name, m at level 100, k at level 200) : py_scope.
Notation "'let?' ' p := m 'in' k" := (res_bind m (fun p => k))
  (at level 10, p pattern, m at level 100, k at level 200) : py_scope.
Open Scope py_scope.

(** [for x in snapshot: s = f(s, x)] over a list that the body does not
    change (a copy such as [enemies[:]]). *)
Fixpoint res_fold {A S} (f : S -> A -> res S) (l : list A) (s : S) : res S :=
  match l with
  | [] => Ok s
  | x :: l' => let? s' := f s x in res_fold f l' s'
  end.

(** ** Object identity *)

(** A Python object compared with [==] and found by [list.remove] and
    [in]: the classes of the program define no [__eq__], so equality is
    identity, the object's [id]. *)
Class PyObj (A : Type) := py_id : A -> nat.

Section PyList.
Context {A : Type} `{PyObj A}.

Definition py_is (x y : A) : bool := Nat.eqb (py_id x) (py_id y).

Definition ids (l : list A) : list nat := map py_id l.

(** [lst.remove(x)]: delete the first element equal to [x], or raise
    [ValueError]. *)
Fixpoint py_remove (x : A) (l : list A) : res (list A) :=
  match l with
  | [] => Err ValueError
  | y :: l' =>
      if py_is y x then Ok l'
      else let? r := py_remove x l' in Ok (y :: r)
  end.

(** [x in lst]. *)
Definition py_in (x : A) (l : list A) : bool := existsb (fun y => py_is y x) l.

(** The object [x] mutated in place: every reference to it in [l] sees
    the new value. *)
Definition py_update (x : A) (l : list A) : list A :=
  map (fun y => if py_is y x then x else y) l.

End PyList.

(** Identities drawn from a counter: distinct and below the counter. *)
Definition fresh_ids (n : nat) (l : list nat) : Prop := NoDup l /\ Forall (fun i => i < n)%nat l.

(** ** Facts on results and on object lists *)

Lemma res_bind_Ok {A B} (a : A) (k : A -> res B) : res_bind (Ok a) k = k a.
Proof. reflexivity. Qed.

Lemma res_bind_Err {A B} e (k : A -> res B) : res_bind (Err e) k = Err e.
Proof. reflexivity. Qed.

Lemma res_bind_Ok_inv {A B} (m : res A) (k : A -> res B) b :
  res_bind m k = Ok b -> exists a, m = Ok a /\ k a = Ok b.
Proof. destruct m; simpl; [eauto | discriminate]. Qed.

Section PyListFacts.
Context {A : Type} `{PyObj A}.

Lemma py_is_true x y : py_is x y = true <-> py_id x = py_id y.
Proof. apply Nat.eqb_eq. Qed.

Lemma py_is_false x y : py_is x y = false <-> py_id x <> py_id y.
Proof. apply Nat.eqb_neq. Qed.

Lemma ids_app l1 l2 : ids (l1 ++ l2) = ids l1 ++ ids l2.
Proof. apply map_app. Qed.

Lemma ids_cons x l : ids (x :: l) = py_id x :: ids l.
Proof. reflexivity. Qed.

Lemma length_ids l : length (ids l) = length l.
Proof. apply length_map. Qed.

(** Removing an object that is absent from [pre] and present right
    after it deletes exactly that position. *)
Lemma py_remove_app x y pre suf :
  py_id x ∉ ids pre -> py_id y = py_id x ->
  py_remove x (pre ++ y :: suf) = Ok (pre ++ suf).
Proof.
  intros Hpre Hy. induction pre as [|z pre IH]; simpl.
  - rewrite (proj2 (py_is_true y x) Hy). reflexivity.
  - rewrite ids_cons in Hpre. apply not_elem_of_cons in Hpre as [Hz Hpre].
    rewrite (proj2 (py_is_false z x) (not_eq_sym Hz)), IH by done. reflexivity.
Qed.

Lemma py_remove_absent x l : py_id x ∉ ids l -> py_remove x l = Err ValueError.
Proof.
  induction l as [|z l IH]; intros Hl; [done|].
  rewrite ids_cons in Hl. apply not_elem_of_cons in Hl as [Hz Hl]. simpl.
  rewrite (proj2 (py_is_false z x) (not_eq_sym Hz)), IH by done. reflexivity.
Qed.

Lemma py_remove_length x l l' :
  py_remove x l = Ok l' -> length l = S (length l').
Proof.
  revert l'. induction l as [|z l IH]; intros l'; simpl; [discriminate|].
  destruct (py_is z x).
  - intros [= <-]. reflexivity.
  - intros (r & Hr & [= <-])%res_bind_Ok_inv. simpl. rewrite (IH r Hr). reflexivity.
Qed.

Lemma py_update_absent x l : py_id x ∉ ids l -> py_update x l = l.
Proof.
  induction l as [|z l IH]; intros Hl; [done|].
  rewrite ids_cons in Hl. apply not_elem_of_cons in Hl as [Hz Hl]. simpl.
  rewrite (proj2 (py_is_false z x) (not_eq_sym Hz)), IH by done. reflexivity.
Qed.

Lemma py_update_app x y pre suf :
  py_id x ∉ ids pre -> py_id x ∉ ids suf -> py_id y = py_id x ->
  py_update x (pre ++ y :: suf) = pre ++ x :: suf.
Proof.
  intros Hpre Hsuf Hy. unfold py_update. rewrite map_app. simpl.
  rewrite (proj2 (py_is_true y x) Hy).
  fold (py_update x pre) (py_update x suf).
  rewrite !py_update_absent by done. reflexivity.
Qed.

Lemma py_in_iff x l : py_in x l = true <-> py_id x ∈ ids l.
Proof.
  unfold py_in, ids. rewrite existsb_exists, list_elem_of_fmap.
  split.
  - intros (y & Hy & Hxy). apply py_is_true in Hxy.
    exists y. split; [done | by apply list_elem_of_In].
  - intros (y & Hxy & Hy). exists y. split; [by apply list_elem_of_In |].
    by apply py_is_true.
Qed.

Lemma py_in_app_cons x y pre suf :
  py_id y = py_id x -> py_in x (pre ++ y :: suf) = true.
Proof.
  intros Hy. apply py_in_iff. rewrite ids_app, ids_cons, Hy.
  apply elem_of_app. right. apply list_elem_of_here.
Qed.

Lemma py_in_absent x l : py_id x ∉ ids l -> py_in x l = false.
Proof.
  intros Hl. destruct (py_in x l) eqn:E; [|done].
  by apply py_in_iff in E.
Qed.
End PyListFacts.

(** Removing an object present in a list of distinct objects succeeds
    and deletes exactly one element. *)
Lemma py_remove_present {A} `{PyObj A} (x : A) (l : list A) :
  py_id x ∈ ids l ->
  exists l', py_remove x l = Ok l' /\ length l = S (length l') /\ l' `sublist_of` l.
Proof.
  induction l as [|y l IH]; intros Hin; [by apply not_elem_of_nil in Hin|].
  simpl. destruct (py_is y x) eqn:Hyx.
  - exists l. split; [done|]. split; [done|]. by apply sublist_cons.
  - rewrite ids_cons in Hin. apply elem_of_cons in Hin as [Heq|Hin].
    { apply py_is_false in Hyx. congruence. }
    destruct (IH Hin) as (l' & -> & Hlen & Hs). simpl.
    exists (y :: l'). split; [done|]. split; [simpl; lia|]. by apply sublist_skip.
Qed.

Lemma py_remove_sublist {A} `{PyObj A} (x : A) (l l' : list A) :
  py_remove x l = Ok l' -> l' `sublist_of` l.
Proof.
  revert l'. induction l as [|y l IH]; intros l'; simpl; [discriminate|].
  destruct (py_is y x).
  - intros [= <-]. by apply sublist_cons.
  - intros (r & Hr & [= <-])%res_bind_Ok_inv. apply sublist_skip. by apply IH.
Qed.

(** The identity facts the loop lemmas need about a list split around
    its current element [x]: [x] occurs neither before nor after. *)
Lemma NoDup_ids_split {A} `{PyObj A} (pre suf : list A) (x : A) :
  NoDup (ids (pre ++ x :: suf)) ->
  (py_id x ∉ ids pre) /\ (py_id x ∉ ids suf) /\ NoDup (ids (pre ++ suf)).
Proof.
  rewrite !ids_app, ids_cons. intros Hnd.
  apply NoDup_app in Hnd as (Hpre & Hdis & Hsuf).
  apply NoDup_cons in Hsuf as [Hx Hsuf].
  repeat split; [| done |].
  - intros Hin. apply (Hdis _ Hin). apply list_elem_of_here.
  - apply NoDup_app. repeat split; [done| |done].
    intros z Hz Hz'. apply (Hdis _ Hz). by apply list_elem_of_further.
Qed.

Lemma NoDup_ids_replace {A} `{PyObj A} (pre suf : list A) (x y : A) :
  py_id y = py_id x -> NoDup (ids (pre ++ x :: suf)) -> NoDup (ids (pre ++ y :: suf)).
Proof. intros Hy. by rewrite !ids_app, !ids_cons, Hy. Qed.

Lemma NoDup_ids_sublist {A} `{PyObj A} (l1 l2 : list A) :
  l1 `sublist_of` l2 -> NoDup (ids l2) -> NoDup (ids l1).
Proof.
  intros Hs Hnd. eapply sublist_NoDup; [exact Hnd|].
  change (py_id <$> l1 `sublist_of` py_id <$> l2). by apply fmap_sublist.
Qed.

Lemma ids_py_update {A} `{PyObj A} (x : A) (l : list A) : ids (py_update x l) = ids l.
Proof.
  unfold ids, py_update. induction l as [|y l IH]; [done|]. simpl. f_equal; [|done].
  destruct (py_is y x) eqn:E; [apply py_is_true in E; by rewrite E|done].
Qed.

Lemma Forall_py_update {A} `{PyObj A} (P : A -> Prop) (x : A) (l : list A) :
  P x -> Forall P l -> Forall P (py_update x l).
Proof.
  intros Hx Hl. unfold py_update. apply Forall_forall. intros y Hy.
  apply list_elem_of_In, in_map_iff in Hy as (z & <- & Hz). apply list_elem_of_In in Hz.
  destruct (py_is z x); [done|]. by eapply Forall_forall.
Qed.

Lemma Forall_of_sublist {A} (P : A -> Prop) (l l' : list A) :
  Forall P l -> l' `sublist_of` l -> Forall P l'.
Proof.
  rewrite !Forall_forall. intros Hf Hs x Hx. apply Hf. by eapply elem_of_sublist.
Qed.

Lemma fresh_ids_nil n : fresh_ids n [].
Proof. split; constructor. Qed.

Lemma fresh_ids_mono n m l : (n <= m)%nat -> fresh_ids n l -> fresh_ids m l.
Proof. intros Hnm [Hnd Hf]. split; [done|]. eapply Forall_impl; [exact Hf|]. simpl; lia. Qed.

Lemma fresh_ids_sublist n l l' : l' `sublist_of` l -> fresh_ids n l -> fresh_ids n l'.
Proof.
  intros Hs [Hnd Hf]. split; [by eapply sublist_NoDup|].
  by eapply Forall_of_sublist.
Qed.

Lemma fresh_ids_snoc n l : fresh_ids n l -> fresh_ids (S n) (l ++ [n]).
Proof.
  intros [Hnd Hf]. split.
  - apply NoDup_app. repeat split; [done| |apply NoDup_singleton].
    intros i Hi ->%list_elem_of_singleton. eapply Forall_forall in Hf; [|exact Hi]. lia.
  - apply Forall_app. split; [eapply Forall_impl; [exact Hf|]; simpl; lia|].
    constructor; [lia|constructor].
Qed.

Lemma fresh_ids_app_seq n k l : fresh_ids n l -> fresh_ids (n + k) (l ++ seq n k).
Proof.
  intros [Hnd Hf]. split.
  - apply NoDup_app. repeat split; [done| |apply NoDup_seq].
    intros i Hi Hi'. apply list_elem_of_In, in_seq in Hi'.
    eapply Forall_forall in Hf; [|exact Hi]. lia.
  - apply Forall_app. split; [eapply Forall_impl; [exact Hf|]; simpl; lia|].
    apply Forall_forall. intros i Hi%list_elem_of_In%in_seq. lia.
Qed.

(** ** Automation shared by the components *)

Create HintDb pyrt discriminated.
Create Rewrite HintDb pyrw.
#[export] Hint Rewrite @res_bind_Ok @res_bind_Err @ids_app @ids_cons : pyrw.
#[export] Hint Resolve py_remove_app py_update_app py_in_app_cons py_in_absent : pyrt.
#[export] Hint Resolve fresh_ids_nil fresh_ids_mono fresh_ids_sublist fresh_ids_snoc
  fresh_ids_app_seq Forall_py_update : pyrt.

(** Case analysis on the boolean tests of the code, with the Prop facts
    kept as hypotheses. *)
Ltac case_bool_Z :=
  repeat match goal with
  | |- context [Z.leb ?a ?b] => destruct (Z.leb_spec a b)
  | |- context [Z.ltb ?a ?b] => destruct (Z.ltb_spec a b)
  | |- context [Z.eqb ?a ?b] => destruct (Z.eqb_spec a b)
  end.

(** A decidable side condition on concrete data, closed by evaluation. *)
Ltac decide_concrete := apply (bool_decide_unpack _); vm_compute; exact I.
