(* ===== verification/PyLoop.v ===== *)
(** * PyLoop: [for x in lst] over a list that the loop body mutates

    CPython's list iterator keeps an index [i]: each step reads
    [lst[i]] from the list as it is now, increments [i], and stops as
    soon as [i] is not below the current length.  A body that deletes
    the current element therefore shifts the next element into position
    [i], and the iterator, now at [i+1], passes over it.  The loops of
    [Character.move_shot] and [Player.move_shot] (src/main.py, lines
    66-72 and 103-112) iterate like this over [self.shots] and over the
    list of enemies while removing from them.

    - [py_for_from]/[py_for]: the iterator, with fuel; [py_for_no_fuel_out]
      shows the fuel [length lst] never runs out when the body never grows
      the list.
    - [visit_ref]: a structural reference for a body that replaces the
      current element in place or deletes it; [py_for_visit_ref] proves
      the iterator computes it, and [visit_ref_skip] states the skip. *)

From S2P Require Import Prelude.

Section PyFor.
Context {St A : Type} (get : St -> list A) (body : A -> St -> res St).

(** [for x in get(s): s = body(x, s)], from iterator index [i]. *)
Fixpoint py_for_from (fuel : nat) (i : nat) (s : St) : res St :=
  match get s !! i with
  | None => Ok s
  | Some x =>
      match fuel with
      | O => Err OutOfFuel
      | S f => let? s' := body x s in py_for_from f (S i) s'
      end
  end.

Definition py_for (s : St) : res St := py_for_from (length (get s)) 0 s.

End PyFor.

Section VisitRef.
Context {A B : Type} (visit : A -> B -> res (A * bool * B)).

(** The structural reference: after a deletion the next element is
    kept as it is, unvisited. *)
Fixpoint visit_ref (l : list A) (b : B) : res (list A * B) :=
  match l with
  | [] => Ok ([], b)
  | x :: r =>
      let? '(x', drop, b') := visit x b in
      if drop then
        match r with
        | [] => Ok ([], b')
        | y :: r' => let? '(l', b'') := visit_ref r' b' in Ok (y :: l', b'')
        end
      else let? '(l', b'') := visit_ref r b' in Ok (x' :: l', b'')
  end.
(** The guarantee of the specification (section 4.2) for a loop that
    removes while it iterates: every element is evaluated at most once
    and removed at most once.  Each element of the input is either
    visited once (kept with its new value, or removed) or left as it
    is; the rest of the state is threaded through the visits in
    order. *)
Inductive at_most_once : list A -> B -> list A -> B -> Prop :=
| amo_nil b : at_most_once [] b [] b
| amo_keep x r b x' b' l' b'' :
    visit x b = Ok (x', false, b') -> at_most_once r b' l' b'' ->
    at_most_once (x :: r) b (x' :: l') b''
| amo_drop x r b x' b' l' b'' :
    visit x b = Ok (x', true, b') -> at_most_once r b' l' b'' ->
    at_most_once (x :: r) b l' b''
| amo_skip x r b l' b' :
    at_most_once r b l' b' -> at_most_once (x :: r) b (x :: l') b'.
End VisitRef.

Section PyForFacts.
Context {St A : Type} (get : St -> list A) (body : A -> St -> res St).

Lemma py_for_from_unfold fuel i s :
  py_for_from get body fuel i s =
    match get s !! i with
    | None => Ok s
    | Some x =>
        match fuel with
        | O => Err OutOfFuel
        | S f => let? s' := body x s in py_for_from get body f (S i) s'
        end
    end.
Proof. destruct fuel; reflexivity. Qed.

Lemma py_for_from_stop fuel i s : get s !! i = None -> py_for_from get body fuel i s = Ok s.
Proof. intros Hi. by rewrite py_for_from_unfold, Hi. Qed.

Hypothesis body_shrinks :
  forall x s s', body x s = Ok s' -> length (get s') <= length (get s).
Hypothesis body_total : forall x s, body x s <> Err OutOfFuel.

Lemma py_for_from_no_fuel_out fuel i s :
  length (get s) <= i + fuel -> py_for_from get body fuel i s <> Err OutOfFuel.
Proof.
  revert i s. induction fuel as [|f IH]; intros i s Hlen; simpl.
  - rewrite lookup_ge_None_2 by lia. discriminate.
  - destruct (get s !! i) as [x|]; [|discriminate].
    destruct (body x s) as [s'|e] eqn:Hb; simpl.
    + apply IH. pose proof (body_shrinks _ _ _ Hb). lia.
    + intros [= ->]. by apply (body_total x s).
Qed.

(** The loop over a list whose body never grows it always stops by
    the iterator's own test, never by running out of fuel. *)
Theorem py_for_no_fuel_out s : py_for get body s <> Err OutOfFuel.
Proof. apply py_for_from_no_fuel_out. lia. Qed.
End PyForFacts.

Section Visit.
Context {A B : Type} `{PyObj A}.

(** What the body does with the current element [x] and the rest of
    the state [b]: its new value, whether it is deleted, the new [b]. *)
Variable visit : A -> B -> res (A * bool * B).

Hypothesis visit_id :
  forall x b x' d b', visit x b = Ok (x', d, b') -> py_id x' = py_id x.

(** The body mutates the current element in place (it keeps its
    identity) and then deletes it or not; nothing else of the list. *)
Variable body : A -> list A * B -> res (list A * B).

(** An invariant of the rest of the state that the visits keep. *)
Variable Binv : B -> Prop.
Hypothesis visit_inv :
  forall x b x' d b', Binv b -> visit x b = Ok (x', d, b') -> Binv b'.

Hypothesis body_spec : forall pre x suf b,
  NoDup (ids (pre ++ x :: suf)) -> Binv b ->
  body x (pre ++ x :: suf, b) =
    let? '(x', drop, b') := visit x b in
    Ok (pre ++ (if drop then suf else x' :: suf), b').

Lemma py_for_from_visit fuel pre l b :
  length l <= fuel -> NoDup (ids (pre ++ l)) -> Binv b ->
  py_for_from fst body fuel (length pre) (pre ++ l, b) =
    let? '(l', b') := visit_ref visit l b in Ok (pre ++ l', b').
Proof.
  revert pre l b. induction fuel as [|f IH]; intros pre l b Hlen Hnd Hb.
  { destruct l; [|simpl in Hlen; lia]. simpl.
    rewrite app_nil_r, lookup_ge_None_2 by lia. done. }
  destruct l as [|x r]; simpl.
  { rewrite app_nil_r, lookup_ge_None_2 by lia. done. }
  rewrite lookup_app_r, Nat.sub_diag by lia. simpl.
  rewrite body_spec by done.
  destruct (visit x b) as [[[x' drop] b']|e] eqn:Hv; simpl; [|done].
  pose proof (NoDup_ids_split _ _ _ Hnd) as (Hpre & Hsuf & Hnd').
  pose proof (visit_inv _ _ _ _ _ Hb Hv) as Hb'.
  destruct drop.
  - destruct r as [|y r'].
    + simpl. rewrite py_for_from_stop; [by rewrite app_nil_r|].
      simpl. apply lookup_ge_None_2. rewrite app_nil_r. lia.
    + replace (S (length pre)) with (length (pre ++ [y])) by (rewrite length_app; simpl; lia).
      replace (pre ++ y :: r') with ((pre ++ [y]) ++ r') by (rewrite <- app_assoc; done).
      rewrite IH; [| simpl in Hlen; lia | rewrite <- app_assoc; exact Hnd' | exact Hb'].
      destruct (visit_ref visit r' b') as [[l' b'']|e]; simpl; [|done].
      by rewrite <- app_assoc.
  - replace (S (length pre)) with (length (pre ++ [x'])) by (rewrite length_app; simpl; lia).
    replace (pre ++ x' :: r) with ((pre ++ [x']) ++ r) by (rewrite <- app_assoc; done).
    rewrite IH; [| simpl in Hlen; lia | | exact Hb'].
    + destruct (visit_ref visit r b') as [[l' b'']|e]; simpl; [|done].
      by rewrite <- app_assoc.
    + rewrite <- app_assoc, !ids_app. simpl.
      rewrite (visit_id _ _ _ _ _ Hv). by rewrite <- ids_cons, <- ids_app.
Qed.

Lemma py_for_visit l b :
  NoDup (ids l) -> Binv b -> py_for fst body (l, b) = visit_ref visit l b.
Proof.
  intros Hnd Hb. unfold py_for. simpl.
  rewrite (py_for_from_visit _ [] l b) by done.
  by destruct (visit_ref visit l b) as [[l' b']|e].
Qed.

(** C36: The iterator computes the structural reference: a loop over a
    list of distinct objects is [visit_ref]. *)
Theorem py_for_visit_ref l b :
  NoDup (ids l) -> Binv b -> py_for fst body (l, b) = visit_ref visit l b.
Proof. apply py_for_visit. Qed.

(** Deleting an element makes the loop pass over the next one: it is
    kept unchanged and never handed to the body, and the loop goes on
    with the element after it. *)
Lemma visit_ref_skip x y r b x' b' :
  visit x b = Ok (x', true, b') ->
  visit_ref visit (x :: y :: r) b =
    let? '(l', b'') := visit_ref visit r b' in Ok (y :: l', b'').
Proof. intros Hv. simpl. by rewrite Hv. Qed.

(** The identities left after the loop are a sublist of those before. *)
Lemma visit_ref_ids_sublist l b l' b' :
  visit_ref visit l b = Ok (l', b') -> ids l' `sublist_of` ids l.
Proof.
  revert b l' b'. induction l as [l IH] using (induction_ltof1 _ (@length _)).
  unfold ltof in IH. intros b l' b' Hl.
  destruct l as [|x r]; simpl in Hl; [injection Hl as <- _; done|].
  destruct (visit x b) as [[[x1 [|]] b1]|e] eqn:Hx; simpl in Hl; [| |done].
  - destruct r as [|y r']; [injection Hl as <- _; apply sublist_nil_l|].
    destruct (visit_ref visit r' b1) as [[l1 b2]|e] eqn:Hr; simpl in Hl; [|done].
    injection Hl as <- _. rewrite !ids_cons. apply sublist_cons, sublist_skip.
    exact (IH r' ltac:(simpl; lia) _ _ _ Hr).
  - destruct (visit_ref visit r b1) as [[l1 b2]|e] eqn:Hr; simpl in Hl; [|done].
    injection Hl as <- _. rewrite !ids_cons, (visit_id _ _ _ _ _ Hx). apply sublist_skip.
    exact (IH r ltac:(simpl; lia) _ _ _ Hr).
Qed.

Lemma visit_ref_length l b l' b' :
  visit_ref visit l b = Ok (l', b') -> length l' <= length l.
Proof.
  revert b l' b'. induction l as [l IH] using (induction_ltof1 _ (@length _)).
  unfold ltof in IH. intros b l' b' Hl.
  destruct l as [|x r]; simpl in Hl; [injection Hl as <- _; done|].
  destruct (visit x b) as [[[x1 [|]] b1]|e]; simpl in Hl; [| |done].
  - destruct r as [|y r']; [injection Hl as <- _; simpl; lia|].
    destruct (visit_ref visit r' b1) as [[l1 b2]|e] eqn:Hr; simpl in Hl; [|done].
    injection Hl as <- _. pose proof (IH r' ltac:(simpl; lia) _ _ _ Hr). simpl; lia.
  - destruct (visit_ref visit r b1) as [[l1 b2]|e] eqn:Hr; simpl in Hl; [|done].
    injection Hl as <- _. pose proof (IH r ltac:(simpl; lia) _ _ _ Hr). simpl; lia.
Qed.
(** A visit that never fails gives a loop that never fails. *)
Lemma visit_ref_total l b :
  (forall x b, exists r, visit x b = Ok r) -> exists r, visit_ref visit l b = Ok r.
Proof.
  intros Hv. revert b. induction l as [l IH] using (induction_ltof1 _ (@length _)).
  unfold ltof in IH. intros b. destruct l as [|x r]; simpl; [eauto|].
  destruct (Hv x b) as [[[x1 [|]] b1] ->]; simpl.
  - destruct r as [|y r']; [eauto|].
    destruct (IH r' ltac:(simpl; lia) b1) as [[l2 b2] ->]. simpl. eauto.
  - destruct (IH r ltac:(simpl; lia) b1) as [[l2 b2] ->]. simpl. eauto.
Qed.

(** A preorder that every visit respects holds between the states
    before and after the loop. *)
Lemma visit_ref_rel (R : B -> B -> Prop) `{!PreOrder R} l b l' b' :
  (forall x b x' d b', visit x b = Ok (x', d, b') -> R b b') ->
  visit_ref visit l b = Ok (l', b') -> R b b'.
Proof.
  intros Hv. revert b l' b'. induction l as [l IH] using (induction_ltof1 _ (@length _)).
  unfold ltof in IH. intros b l' b' Hl.
  destruct l as [|x r]; simpl in Hl; [injection Hl as _ <-; reflexivity|].
  destruct (visit x b) as [[[x1 [|]] b1]|e] eqn:Hx; simpl in Hl; [| |done];
    pose proof (Hv _ _ _ _ _ Hx) as H1.
  - destruct r as [|y r']; [injection Hl as _ <-; done|].
    destruct (visit_ref visit r' b1) as [[l1 b2]|e] eqn:Hr; simpl in Hl; [|done].
    injection Hl as _ <-. etrans; [exact H1|]. exact (IH r' ltac:(simpl; lia) _ _ _ Hr).
  - destruct (visit_ref visit r b1) as [[l1 b2]|e] eqn:Hr; simpl in Hl; [|done].
    injection Hl as _ <-. etrans; [exact H1|]. exact (IH r ltac:(simpl; lia) _ _ _ Hr).
Qed.

(** A quantity [f] of the state that a visit lowers by [w] at most
    once, and only when it deletes the element: over the loop it falls
    by [w] times a count that, added to the final length, is at most
    the initial length. *)
Lemma visit_ref_cost (f : B -> Z) (w : Z) l b l' b' :
  (forall x b x' d b', visit x b = Ok (x', d, b') ->
     f b' = f b \/ (d = true /\ f b' = (f b - w)%Z)) ->
  visit_ref visit l b = Ok (l', b') ->
  exists k : nat, (f b - f b' = w * Z.of_nat k)%Z /\ (k + length l' <= length l)%nat.
Proof.
  intros Hv. revert b l' b'. induction l as [l IH] using (induction_ltof1 _ (@length _)).
  unfold ltof in IH. intros b l' b' Hl.
  destruct l as [|x r]; simpl in Hl.
  { injection Hl as <- <-. exists 0%nat. simpl. lia. }
  destruct (visit x b) as [[[x1 d] b1]|e] eqn:Hx; simpl in Hl; [|done].
  pose proof (Hv _ _ _ _ _ Hx) as Hc.
  destruct d.
  - destruct r as [|y r'].
    { injection Hl as <- <-. destruct Hc as [Hc|[_ Hc]];
        [exists 0%nat | exists 1%nat]; simpl; lia. }
    destruct (visit_ref visit r' b1) as [[l2 b2]|e] eqn:Hr; simpl in Hl; [|done].
    injection Hl as <- <-.
    destruct (IH r' ltac:(simpl; lia) _ _ _ Hr) as (k & Hk & Hlen).
    destruct Hc as [Hc|[_ Hc]]; [exists k | exists (S k)]; simpl in *; lia.
  - destruct (visit_ref visit r b1) as [[l2 b2]|e] eqn:Hr; simpl in Hl; [|done].
    injection Hl as <- <-.
    destruct (IH r ltac:(simpl; lia) _ _ _ Hr) as (k & Hk & Hlen).
    destruct Hc as [Hc|[Hd _]]; [|discriminate].
    exists k. simpl in *. lia.
Qed.
(** A property of the elements that each visit keeps holds of the
    resulting list: the elements passed over are elements of [l]. *)
Lemma visit_ref_Forall (P : A -> Prop) l b l' b' :
  (forall x b x' d b', P x -> visit x b = Ok (x', d, b') -> P x') ->
  Forall P l -> visit_ref visit l b = Ok (l', b') -> Forall P l'.
Proof.
  intros HP. revert b l' b'. induction l as [l IH] using (induction_ltof1 _ (@length _)).
  unfold ltof in IH. intros b l' b' Hl Hr.
  destruct l as [|x r]; simpl in Hr; [by injection Hr as <- _|].
  apply Forall_cons in Hl as [Hx Hl].
  destruct (visit x b) as [[[x1 [|]] b1]|e] eqn:Hv; simpl in Hr; [| |done].
  - destruct r as [|y r']; [injection Hr as <- _; constructor|].
    apply Forall_cons in Hl as [Hy Hl].
    destruct (visit_ref visit r' b1) as [[l1 b2]|e] eqn:Hr'; simpl in Hr; [|done].
    injection Hr as <- _. constructor; [done|]. exact (IH r' ltac:(simpl; lia) _ _ _ Hl Hr').
  - destruct (visit_ref visit r b1) as [[l1 b2]|e] eqn:Hr'; simpl in Hr; [|done].
    injection Hr as <- _. constructor; [exact (HP _ _ _ _ _ Hx Hv)|].
    exact (IH r ltac:(simpl; lia) _ _ _ Hl Hr').
Qed.

(** The structural loop meets the at-most-once guarantee. *)
Lemma visit_ref_at_most_once l b l' b' :
  visit_ref visit l b = Ok (l', b') -> at_most_once visit l b l' b'.
Proof.
  revert b l' b'. induction l as [l IH] using (induction_ltof1 _ (@length _)).
  unfold ltof in IH. intros b l' b' Hr.
  destruct l as [|x r]; simpl in Hr; [injection Hr as <- <-; constructor|].
  destruct (visit x b) as [[[x1 [|]] b1]|e] eqn:Hv; simpl in Hr; [| |done].
  - destruct r as [|y r'].
    { injection Hr as <- <-. eapply amo_drop; [exact Hv|constructor]. }
    destruct (visit_ref visit r' b1) as [[l1 b2]|e] eqn:Hr'; simpl in Hr; [|done].
    injection Hr as <- <-. eapply amo_drop; [exact Hv|]. apply amo_skip.
    exact (IH r' ltac:(simpl; lia) _ _ _ Hr').
  - destruct (visit_ref visit r b1) as [[l1 b2]|e] eqn:Hr'; simpl in Hr; [|done].
    injection Hr as <- <-. eapply amo_keep; [exact Hv|].
    exact (IH r ltac:(simpl; lia) _ _ _ Hr').
Qed.

End Visit.

Arguments py_for_from {St A} get body fuel i s.
Arguments py_for {St A} get body s.
