(* ===== verification/Collision.v ===== *)
(** * Collision: pygame masks and [collide] (src/main.py, lines 7-24, 144-147)

    A pygame [Mask] is a [w] by [h] bitmap; [mask.overlap(other, (ox, oy))]
    places [other] at offset [(ox, oy)] in this mask's coordinates and
    returns the first point where both have a set bit, or [None].  We
    model the bitmap as a function and [overlap] as a search over the
    points of the intersection of the two rectangles, which is where
    pygame looks.  The images of the game are the enumeration [Img]; the
    masks that [pygame.mask.from_surface] derives from them are supplied
    by an instance of the class [Assets], the interface to the asset
    files.  [Sprite] is what [collide] needs of an object: a position
    and a mask ([Shot], [Player] and [Enemy] are instances).

    Theorems: [overlap_spec] characterises [overlap]; [collide_screen]
    (a hit is a screen point opaque in both sprites, which makes the
    test order-independent), [collide_bbox] (a collision needs the bounding
    boxes to meet) and [collide_solid] (for opaque rectangles the
    pixel test is the rectangle intersection test). *)

From S2P Require Import Prelude.
Local Open Scope Z_scope.

(** [WIDTH, HEIGHT = 900, 900] (line 7). *)
Definition WIDTH : Z := 900.
Definition HEIGHT : Z := 900.

(** The images loaded at lines 12-24. *)
Inductive Img :=
| JESUS | SATAN | JUDAS | CENTURION
| JESUS_SHOT | SATAN_SHOT | JUDAS_SHOT | CENTURION_SHOT
| BACKGROUND.

#[export] Instance Img_eq_dec : EqDecision Img.
Proof. solve_decision. Defined.

Record Mask := { mask_w : Z; mask_h : Z; mask_bit : Z -> Z -> bool }.

(** [pygame.mask.from_surface]: the asset files are not part of the
    program, so the masks are an interface that any asset set fulfils. *)
Class Assets := img_mask : Img -> Mask.

Section Masks.
Context `{Assets}.

(** [img.get_width()], [img.get_height()]: a mask has its surface's size. *)
Definition img_width (i : Img) : Z := mask_w (img_mask i).
Definition img_height (i : Img) : Z := mask_h (img_mask i).
End Masks.

(** The candidate points of [m1.overlap(m2, (ox, oy))]: the intersection
    of [m1]'s rectangle with [m2]'s rectangle moved by the offset. *)
Definition overlap_region (m1 m2 : Mask) (ox oy : Z) : list (Z * Z) :=
  let xlo := Z.max 0 ox in
  let xhi := Z.min (mask_w m1) (ox + mask_w m2) in
  let ylo := Z.max 0 oy in
  let yhi := Z.min (mask_h m1) (oy + mask_h m2) in
  list_prod (seqZ xlo (xhi - xlo)) (seqZ ylo (yhi - ylo)).

Definition overlap (m1 m2 : Mask) (ox oy : Z) : option (Z * Z) :=
  find (fun '(x, y) => mask_bit m1 x y && mask_bit m2 (x - ox) (y - oy))
       (overlap_region m1 m2 ox oy).

(** The objects [collide] is applied to: a position and a mask. *)
Class Sprite (T : Type) := {
  spr_x : T -> Z;
  spr_y : T -> Z;
  spr_mask : T -> Mask
}.

(** [collide(obj1, obj2)] (lines 144-147). *)
Definition collide {T1 T2} `{Sprite T1} `{Sprite T2} (obj1 : T1) (obj2 : T2) : bool :=
  let offset_x := spr_x obj2 - spr_x obj1 in
  let offset_y := spr_y obj2 - spr_y obj1 in
  match overlap (spr_mask obj1) (spr_mask obj2) offset_x offset_y with
  | Some _ => true
  | None => false
  end.

(** An opaque rectangle, the mask of a sprite without transparency. *)
Definition solid (w h : Z) : Mask := {| mask_w := w; mask_h := h; mask_bit := fun _ _ => true |}.

(** The bounding-box test: the two rectangles share a point. *)
Definition rects_meet (x1 y1 w1 h1 x2 y2 w2 h2 : Z) : Prop :=
  x1 < x2 + w2 /\ x2 < x1 + w1 /\ y1 < y2 + h2 /\ y2 < y1 + h1 /\
  0 < w1 /\ 0 < h1 /\ 0 < w2 /\ 0 < h2.

(** A concrete asset set for the examples: every image is an opaque
    rectangle (the player 60x60, the enemies 50x50, the shots 10x20). *)
Definition demo_assets : Assets := fun i =>
  match i with
  | JESUS => solid 60 60
  | SATAN | JUDAS | CENTURION => solid 50 50
  | JESUS_SHOT | SATAN_SHOT | JUDAS_SHOT | CENTURION_SHOT => solid 10 20
  | BACKGROUND => solid 900 900
  end.

(** The abstract contract of [overlap]: some pixel set in both masks. *)
Definition pixels_meet (m1 m2 : Mask) (ox oy : Z) : Prop :=
  exists x y,
    0 <= x < mask_w m1 /\ 0 <= y < mask_h m1 /\
    0 <= x - ox < mask_w m2 /\ 0 <= y - oy < mask_h m2 /\
    mask_bit m1 x y = true /\ mask_bit m2 (x - ox) (y - oy) = true.

(** A sprite shows an opaque pixel at the screen point [(X, Y)]: the
    point lies in its image and the mask bit there is set. *)
Definition opaque_at {T} `{Sprite T} (a : T) (X Y : Z) : Prop :=
  spr_x a <= X < spr_x a + mask_w (spr_mask a) /\
  spr_y a <= Y < spr_y a + mask_h (spr_mask a) /\
  mask_bit (spr_mask a) (X - spr_x a) (Y - spr_y a) = true.

Lemma elem_of_overlap_region m1 m2 ox oy x y :
  In (x, y) (overlap_region m1 m2 ox oy) <->
    0 <= x < mask_w m1 /\ 0 <= y < mask_h m1 /\
    0 <= x - ox < mask_w m2 /\ 0 <= y - oy < mask_h m2.
Proof.
  unfold overlap_region. rewrite in_prod_iff, <- !list_elem_of_In, !elem_of_seqZ. lia.
Qed.

Lemma overlap_spec m1 m2 ox oy :
  is_Some (overlap m1 m2 ox oy) <-> pixels_meet m1 m2 ox oy.
Proof.
  unfold overlap, pixels_meet. split.
  - intros [[x y] Hf]. apply find_some in Hf as [Hin Hb].
    apply elem_of_overlap_region in Hin. apply andb_prop in Hb.
    exists x, y. tauto.
  - intros (x & y & Hx & Hy & Hx' & Hy' & B1 & B2).
    destruct (find _ _) eqn:Hf; [done|].
    assert (Hin : In (x, y) (overlap_region m1 m2 ox oy))
      by (apply elem_of_overlap_region; tauto).
    pose proof (find_none _ _ Hf _ Hin) as Hn. simpl in Hn.
    rewrite B1, B2 in Hn. discriminate.
Qed.

Lemma collide_spec {T1 T2} `{Sprite T1} `{Sprite T2} (a : T1) (b : T2) :
  collide a b = true <->
    pixels_meet (spr_mask a) (spr_mask b) (spr_x b - spr_x a) (spr_y b - spr_y a).
Proof.
  unfold collide. rewrite <- overlap_spec.
  destruct (overlap _ _ _ _); split; intros; try done.
Qed.

#[export] Hint Resolve elem_of_overlap_region : pyrt.

Section CollideTheorems.
Context {T1 T2 : Type} `{Sprite T1} `{Sprite T2}.

(** C39: What [collide] decides, in screen coordinates: [collide(a, b)]
    holds exactly when some point of the screen is an opaque pixel of
    both sprites, each image placed at its own position.  This fixes
    the sign of the offset [obj2.x - obj1.x] passed to [overlap], and
    makes the test independent of the order of its arguments. *)
Theorem collide_screen (a : T1) (b : T2) :
  collide a b = true <-> exists X Y, opaque_at a X Y /\ opaque_at b X Y.
Proof.
  rewrite collide_spec. unfold pixels_meet, opaque_at. split.
  - intros (x & y & ? & ? & ? & ? & B1 & B2). exists (spr_x a + x), (spr_y a + y).
    replace (spr_x a + x - spr_x a) with x by lia. replace (spr_y a + y - spr_y a) with y by lia.
    replace (spr_x a + x - spr_x b) with (x - (spr_x b - spr_x a)) by lia.
    replace (spr_y a + y - spr_y b) with (y - (spr_y b - spr_y a)) by lia.
    repeat split; lia || done.
  - intros (X & Y & (? & ? & B1) & (? & ? & B2)). exists (X - spr_x a), (Y - spr_y a).
    replace (X - spr_x a - (spr_x b - spr_x a)) with (X - spr_x b) by lia.
    replace (Y - spr_y a - (spr_y b - spr_y a)) with (Y - spr_y b) by lia.
    repeat split; lia || done.
Qed.

(** C37: Two sprites collide only if their bounding rectangles (position
    and mask size) intersect: the pixel test never reports a hit
    between sprites that are apart. *)
Theorem collide_bbox (a : T1) (b : T2) :
  collide a b = true ->
  rects_meet (spr_x a) (spr_y a) (mask_w (spr_mask a)) (mask_h (spr_mask a))
             (spr_x b) (spr_y b) (mask_w (spr_mask b)) (mask_h (spr_mask b)).
Proof.
  rewrite collide_spec. intros (x & y & ? & ? & ? & ? & _ & _).
  unfold rects_meet. lia.
Qed.

(** C38: For opaque rectangular sprites the pixel-accurate test refines
    to the bounding-box test: [collide] holds exactly when the two
    rectangles intersect. *)
Theorem collide_solid (a : T1) (b : T2) wa ha wb hb :
  spr_mask a = solid wa ha -> spr_mask b = solid wb hb ->
  collide a b = true <->
    rects_meet (spr_x a) (spr_y a) wa ha (spr_x b) (spr_y b) wb hb.
Proof.
  intros Ha Hb. rewrite collide_spec, Ha, Hb. unfold pixels_meet, rects_meet. simpl.
  split.
  - intros (x & y & ? & ? & ? & ? & _ & _). lia.
  - intros ?. exists (Z.max 0 (spr_x b - spr_x a)), (Z.max 0 (spr_y b - spr_y a)).
    repeat split; lia.
Qed.
End CollideTheorems.
