(* ===== verification/Shot.v ===== *)
(** * Shot: class [Shot] (src/main.py, lines 27-44)

    A projectile: its position, its image and the mask derived from it.
    Python compares shots by identity, so a shot also carries its object
    id [shot_oid] (class [PyObj]).  [move] and [off_screen] are the
    methods of the same names; [collision] delegates to [collide].

    The methods are in [Module Shot] ([Shot.move], [Shot.off_screen]).
    Theorems: [move_iter_y] (k moves translate by k times the velocity)
    and [shot_lifetime] (a shot moving away from the top edge is first
    off screen after exactly [(HEIGHT - y) / vel + 1] moves). *)

From S2P Require Import Prelude Collision.
Local Open Scope Z_scope.

Record Shot := mkShot {
  shot_oid : nat;
  shot_x : Z;
  shot_y : Z;
  shot_img : Img
}.

#[export] Instance Shot_obj : PyObj Shot := shot_oid.

(** [self.mask = pygame.mask.from_surface(self.img)] (line 32). *)
#[export] Instance Shot_sprite {AS : Assets} : Sprite Shot :=
  {| spr_x := shot_x; spr_y := shot_y; spr_mask s := img_mask (shot_img s) |}.

Module Shot.

(** [Shot.__init__] (lines 28-32); [oid] is the identity of the new object. *)
Definition init (oid : nat) (x y : Z) (img : Img) : Shot :=
  {| shot_oid := oid; shot_x := x; shot_y := y; shot_img := img |}.

(** [Shot.move] (lines 37-38): [self.y += vel]. *)
Definition move (vel : Z) (s : Shot) : Shot := {| s with shot_y := shot_y s + vel |}.

(** [Shot.off_screen] (lines 40-41): [not (height >= self.y >= 0)]. *)
Definition off_screen (height : Z) (s : Shot) : bool :=
  negb ((shot_y s <=? height) && (0 <=? shot_y s)).

(** [Shot.collision] (lines 43-44). *)
Definition collision {AS : Assets} {T} `{Sprite T} (s : Shot) (obj : T) : bool :=
  collide s obj.

(** [k] calls of [move vel]. *)
Definition move_iter (k : nat) (vel : Z) (s : Shot) : Shot := Nat.iter k (move vel) s.

Lemma move_oid vel s : py_id (move vel s) = py_id s.
Proof. reflexivity. Qed.

Lemma off_screen_false height s :
  off_screen height s = false <-> 0 <= shot_y s <= height.
Proof.
  unfold off_screen. destruct (Z.leb_spec (shot_y s) height), (Z.leb_spec 0 (shot_y s));
    simpl; split; intros; try done; lia.
Qed.

Lemma move_iter_y k vel s : shot_y (move_iter k vel s) = shot_y s + Z.of_nat k * vel.
Proof.
  unfold move_iter. induction k as [|k IH]; [simpl; lia|].
  rewrite Nat.iter_succ. simpl. rewrite IH. lia.
Qed.

(** C27: Off-field pruning: a shot that starts on the field at height [y]
    and moves down by [vel > 0] per call stays on the field for the
    first [(HEIGHT - y) / vel] moves and is off the field after exactly
    one more: it is removed after [(HEIGHT - y) / vel + 1] moves, never
    before.  (From [y = 0] with [vel = 5] that is 181 moves, not
    [ceil(900 / 5) = 180]: [HEIGHT] itself is still on the field.) *)
Theorem shot_lifetime s vel :
  0 <= shot_y s <= HEIGHT -> 0 < vel ->
  (forall k : nat, Z.of_nat k <= (HEIGHT - shot_y s) / vel ->
     off_screen HEIGHT (move_iter k vel s) = false) /\
  off_screen HEIGHT (move_iter (Z.to_nat ((HEIGHT - shot_y s) / vel + 1)) vel s) = true.
Proof.
  intros Hy Hv. split.
  - intros k Hk. apply off_screen_false. rewrite move_iter_y.
    pose proof (Z.mul_div_le (HEIGHT - shot_y s) vel Hv).
    assert (Z.of_nat k * vel <= (HEIGHT - shot_y s) / vel * vel) by nia. lia.
  - destruct (off_screen _ _) eqn:E; [done|]. apply off_screen_false in E.
    rewrite move_iter_y, Z2Nat.id in E by (apply Z.add_nonneg_nonneg; [apply Z.div_pos|]; lia).
    pose proof (Z.mod_pos_bound (HEIGHT - shot_y s) vel Hv).
    pose proof (Z.div_mod (HEIGHT - shot_y s) vel ltac:(lia)). nia.
Qed.

(** The spec's example: a shot from [y = 0] moving by 5 is still on the
    field after 180 moves and removed at the 181st. *)
Lemma shot_lifetime_witness :
  off_screen HEIGHT (move_iter 180 5 (init 0 100 0 JESUS_SHOT)) = false /\
  off_screen HEIGHT (move_iter 181 5 (init 0 100 0 JESUS_SHOT)) = true.
Proof.
  destruct (shot_lifetime (init 0 100 0 JESUS_SHOT) 5) as [H1 H2];
    [unfold HEIGHT; simpl; lia | lia |].
  split.
  - apply (H1 180%nat). apply Z.leb_le. reflexivity.
  - exact H2.
Defined.

End Shot.

#[export] Hint Resolve Shot.move_oid : pyrt.
