(* ===== verification/Character.v ===== *)
(** * Character: class [Character] (src/main.py, lines 47-90)

    The base class of the player and the enemies: a position, a health,
    its two images, the list of its shots and a fire cooldown counter.
    Objects are compared by identity, so a character also carries its
    object id [ch_oid].  The target of a shot is anything that is a
    [Sprite] and has a [health]: the class [Target] states what
    [move_shot] needs of it ([Character] and [Player] are instances).

    [Module Character] holds the methods: [cooldown], [shoot] and the
    base [move_shot], whose loop over [self.shots] is [py_for] of
    [move_shot_body].

    Theorems: the cooldown counter stays in [0, COOLDOWN]
    ([counter_bounds]); after a shot the character is
    ready again after exactly [COOLDOWN] ticks ([cooldown_period]);
    holding fire for [30 q + r] frames creates [q] or [q + 1] shots
    ([fire_rate]); [move_shot] is the structural loop [visit_ref]
    ([move_shot_ref]), never raises ([move_shot_total]), deals 10 damage
    per removed shot ([move_shot_damage]), evaluates and removes every
    shot at most once ([move_shot_at_most_once]) and passes over the
    shot that follows a removed one ([move_shot_skip]). *)

From S2P Require Import Prelude PyLoop Collision Shot.
Local Open Scope Z_scope.

Record Character := mkCharacter {
  ch_oid : nat;
  ch_x : Z;
  ch_y : Z;
  health : Z;
  char_img : Img;
  shot_img : Img;
  shots : list Shot;
  cool_down_counter : Z
}.

#[export] Instance Character_obj : PyObj Character := ch_oid.

(** The subclasses set [self.mask = pygame.mask.from_surface(self.char_img)]
    (lines 98 and 138). *)
#[export] Instance Character_sprite {AS : Assets} : Sprite Character :=
  {| spr_x := ch_x; spr_y := ch_y; spr_mask c := img_mask (char_img c) |}.

(** What a shot's target offers: [obj.health] read and written, the
    write leaving position and mask alone. *)
Class Target (T : Type) `{Sprite T} := {
  get_health : T -> Z;
  set_health : Z -> T -> T;
  get_set_health h o : get_health (set_health h o) = h;
  set_health_x h o : spr_x (set_health h o) = spr_x o;
  set_health_y h o : spr_y (set_health h o) = spr_y o;
  set_health_mask h o : spr_mask (set_health h o) = spr_mask o;
  set_set_health h h' o : set_health h (set_health h' o) = set_health h o
}.

#[export] Instance Character_target {AS : Assets} : Target Character := {|
  get_health := health;
  set_health h c := {| c with health := h |};
  get_set_health _ _ := eq_refl;
  set_health_x _ _ := eq_refl;
  set_health_y _ _ := eq_refl;
  set_health_mask _ _ := eq_refl;
  set_set_health _ _ _ := eq_refl
|}.

Module Character.

(** [COOLDOWN = 30] (line 48). *)
Definition COOLDOWN : Z := 30.

(** [Character.__init__] (lines 50-57), with the images the subclass
    assigns right after it (lines 96-97 and 137). *)
Definition init (oid : nat) (x y hp : Z) (ci si : Img) : Character :=
  {| ch_oid := oid; ch_x := x; ch_y := y; health := hp; char_img := ci;
     shot_img := si; shots := []; cool_down_counter := 0 |}.

(** [Character.cooldown] (lines 74-78). *)
Definition cooldown (c : Character) : Character :=
  if COOLDOWN <=? cool_down_counter c then {| c with cool_down_counter := 0 |}
  else if 0 <? cool_down_counter c then
    {| c with cool_down_counter := cool_down_counter c + 1 |}
  else c.

(** [Character.shoot] (lines 80-84); [oid] is the identity of the
    [Shot] object the call would create. *)
Definition shoot (oid : nat) (c : Character) : Character :=
  if cool_down_counter c =? 0 then
    {| c with shots := shots c ++ [Shot.init oid (ch_x c) (ch_y c) (shot_img c)];
              cool_down_counter := 1 |}
  else c.

(** The invariant of the counter. *)
Definition counter_ok (c : Character) : Prop := 0 <= cool_down_counter c <= COOLDOWN.

(** A frame in which fire is held: [shoot] (line 235), then the
    [cooldown] that starts [move_shot] (line 102). *)
Definition fire_tick (oid : nat) (c : Character) : Character := cooldown (shoot oid c).

Section MoveShot.
Context {AS : Assets} {T : Type} `{Target T}.

(** One iteration of the loop of [Character.move_shot] (lines 66-72):
    the shot is moved in place, then removed if off screen, or removed
    after damaging [obj] if it hits it. *)
Definition move_shot_body (vel : Z) (shot : Shot) (st : list Shot * T)
    : res (list Shot * T) :=
  let '(shots, obj) := st in
  let shot := Shot.move vel shot in
  let shots := py_update shot shots in
  if Shot.off_screen HEIGHT shot then
    let? shots := py_remove shot shots in Ok (shots, obj)
  else if Shot.collision shot obj then
    let obj := set_health (get_health obj - 10) obj in
    let? shots := py_remove shot shots in Ok (shots, obj)
  else Ok (shots, obj).

(** [Character.move_shot(vel, obj)] (lines 64-72). *)
Definition move_shot (vel : Z) (obj : T) (c : Character) : res (Character * T) :=
  let c := cooldown c in
  let? '(shots', obj') := py_for fst (move_shot_body vel) (shots c, obj) in
  Ok ({| c with shots := shots' |}, obj').

(** The effect of one iteration on the current shot and the target. *)
Definition move_shot_visit (vel : Z) (shot : Shot) (obj : T) : res (Shot * bool * T) :=
  let shot := Shot.move vel shot in
  if Shot.off_screen HEIGHT shot then Ok (shot, true, obj)
  else if Shot.collision shot obj then
    Ok (shot, true, set_health (get_health obj - 10) obj)
  else Ok (shot, false, obj).
End MoveShot.

(** ** The cooldown counter *)

Lemma cooldown_shots c : shots (cooldown c) = shots c.
Proof. unfold cooldown. by repeat case_match. Qed.

Lemma cooldown_oid c : ch_oid (cooldown c) = ch_oid c.
Proof. unfold cooldown. by repeat case_match. Qed.

Lemma cooldown_counter c :
  cool_down_counter (cooldown c) =
    if COOLDOWN <=? cool_down_counter c then 0
    else if 0 <? cool_down_counter c then cool_down_counter c + 1
    else cool_down_counter c.
Proof. unfold cooldown. by repeat case_match. Qed.

Lemma counter_ok_steps oid c :
  counter_ok c -> counter_ok (cooldown c) /\ counter_ok (shoot oid c).
Proof.
  unfold counter_ok, shoot. rewrite cooldown_counter. unfold COOLDOWN. intros Hc.
  split; case_bool_Z; simpl; lia.
Qed.

(** C25: The cooldown counter stays within [0, COOLDOWN]: [cooldown] and
    [shoot] both keep it there. *)
Theorem counter_bounds oid c :
  counter_ok c -> counter_ok (cooldown c) /\ counter_ok (shoot oid c).
Proof. apply counter_ok_steps. Qed.

Lemma shoot_fresh n c :
  fresh_ids n (ids (shots c)) -> fresh_ids (S n) (ids (shots (shoot n c))).
Proof.
  intros Hf. unfold shoot. case_match; simpl.
  - rewrite ids_app. by apply fresh_ids_snoc.
  - eapply fresh_ids_mono; [|exact Hf]. lia.
Qed.

Lemma shoot_oid n c : ch_oid (shoot n c) = ch_oid c.
Proof. unfold shoot. by case_match. Qed.

(** C24: After a shot (counter 1) the character is not ready for the next
    [COOLDOWN - 1] ticks, the counter reading [1 + k] after [k] ticks,
    and it is ready again (counter 0) after exactly [COOLDOWN] ticks. *)
Theorem cooldown_period c :
  cool_down_counter c = 1 ->
  (forall k : nat, (k < 30)%nat ->
     cool_down_counter (Nat.iter k cooldown c) = 1 + Z.of_nat k) /\
  cool_down_counter (Nat.iter 30 cooldown c) = 0.
Proof.
  intros Hc.
  assert (Hk : forall k : nat, (k < 30)%nat ->
            cool_down_counter (Nat.iter k cooldown c) = 1 + Z.of_nat k).
  { induction k as [|k IH]; intros Hlt; [simpl; lia|].
    rewrite Nat.iter_succ, cooldown_counter, IH by lia. unfold COOLDOWN. case_bool_Z; lia. }
  split; [exact Hk|].
  rewrite Nat.iter_succ, cooldown_counter, Hk by lia. reflexivity.
Qed.

Lemma cooldown_period_witness :
  cool_down_counter (Nat.iter 29 cooldown (shoot 0 (init 0 370 570 100 JESUS JESUS_SHOT))) = 30 /\
  cool_down_counter (Nat.iter 30 cooldown (shoot 0 (init 0 370 570 100 JESUS JESUS_SHOT))) = 0.
Proof.
  destruct (cooldown_period (shoot 0 (init 0 370 570 100 JESUS JESUS_SHOT)) eq_refl) as [H1 H2].
  split; [apply (H1 29%nat); lia | exact H2].
Defined.

Lemma fire_tick_ready oid c :
  cool_down_counter c = 0 ->
  cool_down_counter (fire_tick oid c) = 2 /\
  length (shots (fire_tick oid c)) = S (length (shots c)).
Proof.
  intros Hc. unfold fire_tick. rewrite cooldown_counter, cooldown_shots.
  unfold shoot. rewrite Hc. simpl. rewrite length_app. simpl. lia.
Qed.

Lemma fire_tick_cool oid c : cool_down_counter c <> 0 -> fire_tick oid c = cooldown c.
Proof. intros Hc. unfold fire_tick, shoot. by rewrite (proj2 (Z.eqb_neq _ _) Hc). Qed.

Lemma fire_tick_cooling oid c k :
  2 <= cool_down_counter c -> cool_down_counter c + Z.of_nat k <= COOLDOWN ->
  cool_down_counter (Nat.iter k (fire_tick oid) c) = cool_down_counter c + Z.of_nat k /\
  shots (Nat.iter k (fire_tick oid) c) = shots c.
Proof.
  intros H1. induction k as [|k IH]; intros H2; [simpl; split; [lia|done]|].
  destruct IH as [IHc IHs]; [lia|].
  rewrite Nat.iter_succ, fire_tick_cool by lia.
  rewrite cooldown_counter, cooldown_shots, IHc, IHs. unfold COOLDOWN in *.
  split; [case_bool_Z; lia | done].
Qed.

Lemma fire_tick_block oid c :
  cool_down_counter c = 0 ->
  cool_down_counter (Nat.iter 30 (fire_tick oid) c) = 0 /\
  length (shots (Nat.iter 30 (fire_tick oid) c)) = S (length (shots c)).
Proof.
  intros Hc. destruct (fire_tick_ready oid c Hc) as [Hr Hl].
  rewrite Nat.iter_succ, Nat.iter_succ_r.
  destruct (fire_tick_cooling oid (fire_tick oid c) 28) as [Hc' Hs']; [lia|unfold COOLDOWN; lia|].
  rewrite fire_tick_cool by lia.
  rewrite cooldown_counter, cooldown_shots, Hc', Hs', Hr. split; [done|exact Hl].
Qed.

Lemma fire_tick_partial oid c r :
  cool_down_counter c = 0 -> (0 < r < 30)%nat ->
  length (shots (Nat.iter r (fire_tick oid) c)) = S (length (shots c)).
Proof.
  intros Hc Hr. destruct r as [|r]; [lia|].
  rewrite Nat.iter_succ_r. destruct (fire_tick_ready oid c Hc) as [H1 H2].
  destruct (fire_tick_cooling oid (fire_tick oid c) r) as [_ ->]; [lia|unfold COOLDOWN; lia|].
  exact H2.
Qed.

(** C23: Fire rate: a character that is ready and has fire held for
    [30 q + r] frames ([r < 30]) creates exactly [q] shots, plus one if
    [r > 0]; in particular fewer than 30 frames of fire give one shot. *)
Theorem fire_rate oid c q r :
  cool_down_counter c = 0 -> (r < 30)%nat ->
  length (shots (Nat.iter (30 * q + r) (fire_tick oid) c)) =
    (length (shots c) + q + (if r =? 0 then 0 else 1))%nat.
Proof.
  intros Hc Hr. rewrite (Nat.add_comm _ r), Nat.iter_add.
  assert (Hq : cool_down_counter (Nat.iter (30 * q) (fire_tick oid) c) = 0 /\
               length (shots (Nat.iter (30 * q) (fire_tick oid) c)) = (length (shots c) + q)%nat).
  { induction q as [|q [IHc IHl]]; [simpl; lia|].
    replace (30 * S q)%nat with (30 + 30 * q)%nat by lia. rewrite Nat.iter_add.
    destruct (fire_tick_block oid _ IHc) as [-> ->]. lia. }
  destruct Hq as [Hqc Hql]. destruct (Nat.eqb_spec r 0) as [->|Hr0].
  - transitivity (length (shots c) + q)%nat; [exact Hql | simpl; lia].
  - rewrite fire_tick_partial by (auto; lia). lia.
Qed.

Lemma fire_rate_witness :
  length (shots (Nat.iter (30 * 2 + 5) (fire_tick 7) (init 0 370 570 100 JESUS JESUS_SHOT))) = 3%nat.
Proof.
  rewrite (fire_rate 7 (init 0 370 570 100 JESUS JESUS_SHOT) 2 5); [reflexivity | reflexivity | lia].
Defined.

(** ** The loop of [move_shot] *)

Section MoveShotTheorems.
Context {AS : Assets} {T : Type} `{Target T}.

(** The target of [move_shot] only has its health changed. *)
Definition health_changed (o o' : T) : Prop := o' = o \/ exists h, o' = set_health h o.

#[local] Instance health_changed_preorder : PreOrder health_changed.
Proof.
  split.
  - by left.
  - intros o1 o2 o3 [->|[h1 ->]] [->|[h2 ->]]; [by left|right; eauto..|].
    right. exists h2. apply set_set_health.
Qed.

Lemma move_shot_visit_id vel x b x' d b' :
  move_shot_visit vel x b = Ok (x', d, b') -> py_id x' = py_id x.
Proof. unfold move_shot_visit. repeat case_match; intros [= <- _ _]; reflexivity. Qed.

Lemma move_shot_visit_total vel x b : exists r, move_shot_visit vel x b = Ok r.
Proof. unfold move_shot_visit. repeat case_match; eauto. Qed.

Lemma move_shot_body_spec vel pre x suf b :
  NoDup (ids (pre ++ x :: suf)) -> True ->
  move_shot_body vel x (pre ++ x :: suf, b) =
    let? '(x', drop, b') := move_shot_visit vel x b in
    Ok (pre ++ (if drop then suf else x' :: suf), b').
Proof.
  intros Hnd _. destruct (NoDup_ids_split _ _ _ Hnd) as (Hpre & Hsuf & _).
  unfold move_shot_body, move_shot_visit.
  rewrite (py_update_app (Shot.move vel x) x) by done.
  destruct (Shot.off_screen _ _); [|destruct (Shot.collision _ _)]; simpl;
    rewrite ?(py_remove_app (Shot.move vel x) (Shot.move vel x)) by done; reflexivity.
Qed.

Lemma move_shot_loop_ref vel obj c :
  NoDup (ids (shots c)) ->
  move_shot vel obj c =
    let? '(l', o') := visit_ref (move_shot_visit vel) (shots c) obj in
    Ok ({| (cooldown c) with shots := l' |}, o').
Proof.
  intros Hnd. unfold move_shot. rewrite cooldown_shots.
  rewrite (py_for_visit _ (move_shot_visit_id vel) _ (fun _ => True) (fun _ _ _ _ _ _ _ => I)
             (move_shot_body_spec vel)) by done.
  by destruct (visit_ref _ _ _) as [[l' o']|e].
Qed.

(** C6: The Python loop of [Character.move_shot] over [self.shots],
    which removes from the list it iterates, computes the structural
    reference [visit_ref] of its per-shot step [move_shot_visit]. *)
Theorem move_shot_ref vel obj c :
  NoDup (ids (shots c)) ->
  move_shot vel obj c =
    let? '(l', o') := visit_ref (move_shot_visit vel) (shots c) obj in
    Ok ({| (cooldown c) with shots := l' |}, o').
Proof. apply move_shot_loop_ref. Qed.

Lemma move_shot_returns vel obj c :
  NoDup (ids (shots c)) -> exists c' obj', move_shot vel obj c = Ok (c', obj').
Proof.
  intros Hnd. rewrite move_shot_loop_ref by done.
  destruct (visit_ref_total (move_shot_visit vel) (shots c) obj (move_shot_visit_total vel))
    as [[l' o'] ->].
  simpl. eauto.
Qed.

(** C8: [Character.move_shot] never raises: with shots of distinct
    identities, every [self.shots.remove(shot)] finds its shot and the
    loop ends. *)
Theorem move_shot_total vel obj c :
  NoDup (ids (shots c)) -> exists c' obj', move_shot vel obj c = Ok (c', obj').
Proof. apply move_shot_returns. Qed.

(** The health the target loses and the shots removed. *)
Lemma move_shot_cost vel obj c c' obj' :
  NoDup (ids (shots c)) -> move_shot vel obj c = Ok (c', obj') ->
  exists k : nat, get_health obj - get_health obj' = 10 * Z.of_nat k /\
    (k + length (shots c') <= length (shots c))%nat.
Proof.
  intros Hnd. rewrite move_shot_loop_ref by done.
  destruct (visit_ref _ _ _) as [[l' o']|e] eqn:Hr; simpl; [|done].
  intros [= <- <-]. simpl.
  apply (visit_ref_cost _ get_health 10 _ _ _ _) in Hr; [done|].
  intros x b x' d b'. unfold move_shot_visit.
  repeat case_match; intros [= <- <- <-]; rewrite ?get_set_health; auto.
Qed.


(** What [move_shot] changes: the cooldown, the shots (a sublist of
    the old ones by identity) and the target's health. *)
Lemma move_shot_frame vel obj c c' obj' :
  NoDup (ids (shots c)) -> move_shot vel obj c = Ok (c', obj') ->
  c' = {| (cooldown c) with shots := shots c' |} /\
  ids (shots c') `sublist_of` ids (shots c) /\ health_changed obj obj'.
Proof.
  intros Hnd. rewrite move_shot_loop_ref by done.
  destruct (visit_ref _ _ _) as [[l' o']|e] eqn:Hr; simpl; [|done].
  intros [= <- <-]. split; [done|]. split.
  - exact (visit_ref_ids_sublist _ (move_shot_visit_id vel) _ _ _ _ Hr).
  - refine (visit_ref_rel _ health_changed _ _ _ _ _ Hr).
    intros x b x' d b'. unfold move_shot_visit.
    repeat case_match; intros [= _ _ <-]; [by left|right; eauto|by left].
Qed.

(** C4: Removal during iteration skips: when the first shot is removed
    (off screen or hit), the second shot leaves the loop unchanged, not
    moved and not tested against the target. *)
Theorem move_shot_skip vel obj c s1 s2 r s1' obj1 :
  shots c = s1 :: s2 :: r -> NoDup (ids (shots c)) ->
  move_shot_visit vel s1 obj = Ok (s1', true, obj1) ->
  exists l' obj', move_shot vel obj c = Ok ({| (cooldown c) with shots := s2 :: l' |}, obj').
Proof.
  intros Hs Hnd Hv. rewrite move_shot_loop_ref by done. rewrite Hs.
  rewrite (visit_ref_skip _ _ _ _ _ _ _ Hv).
  destruct (visit_ref_total (move_shot_visit vel) r obj1 (move_shot_visit_total vel))
    as [[l' o'] ->].
  simpl. eauto.
Qed.
(** C11: Refinement of the guarantee of the specification (section 4.2):
    [Character.move_shot] evaluates every shot at most once and removes
    it at most once; each shot is either moved and tested once (kept or
    removed, the target damaged on a hit) or left as it was. *)
Theorem move_shot_at_most_once vel obj c c' obj' :
  NoDup (ids (shots c)) -> move_shot vel obj c = Ok (c', obj') ->
  at_most_once (move_shot_visit vel) (shots c) obj (shots c') obj'.
Proof.
  intros Hnd. rewrite move_shot_loop_ref by done.
  destruct (visit_ref _ _ _) as [[l' o']|e] eqn:Hr; simpl; [|done].
  intros [= <- <-]. by apply visit_ref_at_most_once.
Qed.
End MoveShotTheorems.

(** ** Concrete runs *)

Section Witnesses.
#[local] Existing Instance demo_assets.

(** A target placed like the player at its start, and an enemy whose
    two shots are at the bottom edge and one that hits the target. *)
Local Abbreviation target := (init 1 370 570 100 JESUS JESUS_SHOT).
Local Abbreviation s_low := (Shot.init 10 100 897 SATAN_SHOT).
Local Abbreviation s_next := (Shot.init 11 100 898 SATAN_SHOT).
Local Abbreviation s_hit := (Shot.init 12 380 560 SATAN_SHOT).
Local Abbreviation shooter l := ({| (init 2 100 600 100 SATAN SATAN_SHOT) with shots := l |}).

Lemma counter_bounds_witness :
  counter_ok (cooldown target) /\ counter_ok (shoot 3 target).
Proof. apply counter_bounds. unfold counter_ok, COOLDOWN. simpl. lia. Defined.

Lemma move_shot_ref_witness :
  move_shot 5 target (shooter [s_low; s_next]) =
    let? '(l', o') := visit_ref (move_shot_visit 5) [s_low; s_next] target in
    Ok ({| (cooldown (shooter [s_low; s_next])) with shots := l' |}, o').
Proof. apply move_shot_ref. decide_concrete. Defined.

Lemma move_shot_total_witness :
  exists c' obj', move_shot 5 target (shooter [s_low; s_next; s_hit]) = Ok (c', obj').
Proof. apply move_shot_total. decide_concrete. Defined.

(** The shot at [y = 897] leaves the field and is removed; the shot
    behind it, at [y = 898], comes out of the frame without moving. *)
Lemma move_shot_skip_witness :
  exists l' obj', move_shot 5 target (shooter [s_low; s_next]) =
    Ok ({| (cooldown (shooter [s_low; s_next])) with shots := s_next :: l' |}, obj').
Proof.
  eapply (move_shot_skip 5 target _ s_low s_next []); [reflexivity | decide_concrete |].
  reflexivity.
Defined.

(** The Python iterator over two shots of which the first leaves the
    screen, and the structural reference it computes. *)
Lemma py_for_visit_ref_witness :
  py_for fst (move_shot_body 5) ([s_low; s_next], target) =
    visit_ref (move_shot_visit 5) [s_low; s_next] target.
Proof.
  apply (py_for_visit_ref _ (move_shot_visit_id 5) _ (fun _ => True)
           (fun _ _ _ _ _ _ _ => I) (move_shot_body_spec 5)); [decide_concrete | exact I].
Defined.

(** The moved hitting shot and the target: their rectangles meet. *)
Lemma collide_bbox_witness :
  rects_meet (spr_x (Shot.move 5 s_hit)) (spr_y (Shot.move 5 s_hit))
             (mask_w (spr_mask (Shot.move 5 s_hit))) (mask_h (spr_mask (Shot.move 5 s_hit)))
             (spr_x target) (spr_y target) (mask_w (spr_mask target)) (mask_h (spr_mask target)).
Proof. apply collide_bbox. vm_compute. reflexivity. Defined.

Lemma collide_solid_witness :
  collide s_low target = true <-> rects_meet 100 897 10 20 370 570 60 60.
Proof. exact (collide_solid s_low target 10 20 60 60 eq_refl eq_refl). Defined.

Local Abbreviation ms_out :=
  (match move_shot 5 target (shooter [s_low; s_next]) with
   | Ok r => r | Err _ => (shooter [], target) end).

Lemma move_shot_at_most_once_witness :
  at_most_once (move_shot_visit 5) (shots (shooter [s_low; s_next])) target
    (shots (fst ms_out)) (snd ms_out).
Proof.
  apply (move_shot_at_most_once 5 target (shooter [s_low; s_next])); [decide_concrete|].
  vm_compute. reflexivity.
Defined.
End Witnesses.

End Character.
