(* ===== verification/Player.v ===== *)
(** * Player: class [Player] (src/main.py, lines 93-125)

    The player is a [Character] with a [max_health].  It overrides
    [move_shot]: its shots target the whole list of enemies, and the
    inner loop [for obj in objs] removes every enemy a shot hits from
    that very list (the caller's [enemies], passed by reference), and
    removes the shot from [self.shots] if it is still there.  The enemy
    type is left abstract here (any [Sprite] with an identity); [Game.v]
    instantiates it with [Enemy].

    [Module Player] holds [init], the inner loop body [hit_body], the
    outer body [move_shot_body], [move_shot] and [health_bar_width].
    [kill_ref] is the structural reference of the inner loop, and
    [move_shot_visit] the effect of one outer iteration.

    Theorems: the inner loop computes [kill_ref] ([hit_loop_ref]);
    [Player.move_shot] computes [visit_ref] of [move_shot_visit]
    ([move_shot_kills_ref]), never raises ([move_shot_kills_total]) and
    evaluates every shot at most once ([move_shot_kills_at_most_once]);
    the inner loop removes only enemies the shot overlaps, takes the
    shot out of [self.shots] exactly when it hits, and of [n] enemies
    that all overlap the shot removes [(n + 1) / 2] ([hit_loop_kills]);
    the health bar has a
    negative width exactly when the health is negative
    ([health_bar_negative]). *)

From Stdlib Require Import QArith.
From S2P Require Import Prelude PyLoop Collision Shot Character.
Local Open Scope Z_scope.

Record Player := mkPlayer {
  p_ch : Character;
  max_health : Z
}.

#[export] Instance Player_obj : PyObj Player := fun p => ch_oid (p_ch p).

(** [self.mask = pygame.mask.from_surface(self.char_img)] (line 98). *)
#[export] Instance Player_sprite {AS : Assets} : Sprite Player :=
  {| spr_x p := ch_x (p_ch p); spr_y p := ch_y (p_ch p);
     spr_mask p := img_mask (char_img (p_ch p)) |}.

#[export] Instance Player_target {AS : Assets} : Target Player := {|
  get_health p := health (p_ch p);
  set_health h p := {| p with p_ch := {| (p_ch p) with health := h |} |};
  get_set_health _ _ := eq_refl;
  set_health_x _ _ := eq_refl;
  set_health_y _ _ := eq_refl;
  set_health_mask _ _ := eq_refl;
  set_set_health _ _ _ := eq_refl
|}.

Module Player.

(** [Player.__init__(x, y, health=100)] (lines 94-99). *)
Definition init (oid : nat) (x y hp : Z) : Player :=
  {| p_ch := Character.init oid x y hp JESUS JESUS_SHOT; max_health := hp |}.

Section MoveShot.
Context {AS : Assets} {E : Type} `{Sprite E} `{PyObj E}.

(** One iteration of the inner loop (lines 108-112), on the state
    [(objs, self.shots)]. *)
Definition hit_body (shot : Shot) (obj : E) (st : list E * list Shot)
    : res (list E * list Shot) :=
  let '(objs, shots) := st in
  if Shot.collision shot obj then
    let? objs := py_remove obj objs in
    if py_in shot shots then
      let? shots := py_remove shot shots in Ok (objs, shots)
    else Ok (objs, shots)
  else Ok (objs, shots).

(** One iteration of the outer loop (lines 103-112), on the state
    [(self.shots, objs)]. *)
Definition move_shot_body (vel : Z) (shot : Shot) (st : list Shot * list E)
    : res (list Shot * list E) :=
  let '(shots, objs) := st in
  let shot := Shot.move vel shot in
  let shots := py_update shot shots in
  if Shot.off_screen HEIGHT shot then
    let? shots := py_remove shot shots in Ok (shots, objs)
  else
    let? '(objs, shots) := py_for fst (hit_body shot) (objs, shots) in
    Ok (shots, objs).

(** [Player.move_shot(vel, objs)] (lines 101-112). *)
Definition move_shot (vel : Z) (objs : list E) (p : Player) : res (Player * list E) :=
  let c := Character.cooldown (p_ch p) in
  let? '(shots', objs') := py_for fst (move_shot_body vel) (shots c, objs) in
  Ok ({| p with p_ch := {| c with shots := shots' |} |}, objs').

(** The inner loop as a structural function: the enemies left and the
    number removed.  After a removal the next enemy is passed over. *)
Fixpoint kill_ref (shot : Shot) (objs : list E) : list E * nat :=
  match objs with
  | [] => ([], 0%nat)
  | o :: r =>
      if Shot.collision shot o then
        match r with
        | [] => ([], 1%nat)
        | o2 :: r' => let '(l, k) := kill_ref shot r' in (o2 :: l, S k)
        end
      else let '(l, k) := kill_ref shot r in (o :: l, k)
  end.

(** The effect of one inner iteration on the current enemy and on
    [self.shots]. *)
Definition hit_visit (shot : Shot) (obj : E) (shots : list Shot)
    : res (E * bool * list Shot) :=
  if Shot.collision shot obj then
    if py_in shot shots then
      let? shots := py_remove shot shots in Ok (obj, true, shots)
    else Ok (obj, true, shots)
  else Ok (obj, false, shots).

(** The effect of one outer iteration on the current shot and on the
    enemies. *)
Definition move_shot_visit (vel : Z) (shot : Shot) (objs : list E)
    : res (Shot * bool * list E) :=
  let shot := Shot.move vel shot in
  if Shot.off_screen HEIGHT shot then Ok (shot, true, objs)
  else let '(objs', k) := kill_ref shot objs in Ok (shot, negb (k =? 0)%nat, objs').
End MoveShot.

(** The width of the green bar of [Player.health_bar] (lines 119-121):
    [self.char_img.get_width() * (self.health / self.max_health)], a
    Python float, here a rational. *)
Definition health_bar_width {AS : Assets} (p : Player) : Q :=
  inject_Z (img_width (char_img (p_ch p))) * (inject_Z (health (p_ch p)) / inject_Z (max_health p)).

(** ** The inner loop *)

Section MoveShotTheorems.
Context {AS : Assets} {E : Type} `{Sprite E} `{PyObj E}.

Lemma kill_ref_sublist shot (objs : list E) : fst (kill_ref shot objs) `sublist_of` objs.
Proof.
  induction objs as [objs IH] using (induction_ltof1 _ (@length _)). unfold ltof in IH.
  destruct objs as [|o r]; simpl; [constructor|].
  destruct (Shot.collision shot o).
  - destruct r as [|o2 r']; [constructor; constructor|].
    specialize (IH r' ltac:(simpl; lia)). destruct (kill_ref shot r') as [l k].
    simpl in *. apply sublist_cons. by apply sublist_skip.
  - specialize (IH r ltac:(simpl; lia)). destruct (kill_ref shot r) as [l k].
    simpl in *. by apply sublist_skip.
Qed.

(** The enemies [kill_ref] removes all overlap the shot and are as many
    as it counts. *)
Lemma kill_ref_perm shot (objs : list E) :
  exists killed,
    objs ≡ₚ fst (kill_ref shot objs) ++ killed /\
    Forall (fun o => Shot.collision shot o = true) killed /\
    length killed = snd (kill_ref shot objs).
Proof.
  induction objs as [objs IH] using (induction_ltof1 _ (@length _)). unfold ltof in IH.
  destruct objs as [|o r]; simpl; [exists []; auto|].
  destruct (Shot.collision shot o) eqn:Hc.
  - destruct r as [|o2 r'].
    { exists [o]. simpl. repeat split; auto. }
    destruct (IH r' ltac:(simpl; lia)) as (k & Hp & Hf & Hl).
    destruct (kill_ref shot r') as [l n]. simpl in *.
    exists (o :: k). repeat split; [| by constructor | simpl; lia].
    rewrite Hp. apply (Permutation_middle (o2 :: l) k o).
  - destruct (IH r ltac:(simpl; lia)) as (k & Hp & Hf & Hl).
    destruct (kill_ref shot r) as [l n]. simpl in *.
    exists k. repeat split; auto.
Qed.

Lemma hit_visit_id shot x b x' d b' :
  hit_visit shot x b = Ok (x', d, b') -> py_id x' = py_id x.
Proof.
  unfold hit_visit. repeat case_match; simpl; try (intros [= <- _ _]; reflexivity).
  destruct (py_remove _ _); simpl; [intros [= <- _ _]|]; done.
Qed.

Lemma hit_body_spec shot pre x suf b :
  NoDup (ids (pre ++ x :: suf)) -> True ->
  hit_body shot x (pre ++ x :: suf, b) =
    let? '(x', drop, b') := hit_visit shot x b in
    Ok (pre ++ (if drop then suf else x' :: suf), b').
Proof.
  intros Hnd _. destruct (NoDup_ids_split _ _ _ Hnd) as (Hpre & _ & _).
  unfold hit_body, hit_visit. destruct (Shot.collision shot x); [|reflexivity].
  rewrite (py_remove_app x x) by done. simpl.
  destruct (py_in shot b); [|reflexivity]. by destruct (py_remove shot b).
Qed.

Lemma hit_loop_ref shot (objs : list E) shots :
  NoDup (ids objs) ->
  py_for fst (hit_body shot) (objs, shots) = visit_ref (hit_visit shot) objs shots.
Proof.
  intros Hnd.
  exact (py_for_visit _ (hit_visit_id shot) _ (fun _ => True)
           (fun _ _ _ _ _ _ _ => I) (hit_body_spec shot) objs shots Hnd I).
Qed.

Lemma hit_ref_absent shot (objs : list E) shots :
  py_id shot ∉ ids shots ->
  visit_ref (hit_visit shot) objs shots = Ok (fst (kill_ref shot objs), shots).
Proof.
  intros Hs. induction objs as [objs IH] using (induction_ltof1 _ (@length _)).
  unfold ltof in IH. destruct objs as [|o r]; simpl; [done|].
  unfold hit_visit at 1. rewrite (py_in_absent shot shots Hs).
  destruct (Shot.collision shot o); simpl.
  - destruct r as [|o2 r']; [done|].
    rewrite IH by (simpl; lia). simpl. by destruct (kill_ref shot r').
  - rewrite IH by (simpl; lia). simpl. by destruct (kill_ref shot r).
Qed.

(** The inner loop's effect on [self.shots]: the shot is removed once,
    at its first hit, and the [in] test keeps later hits from removing
    it again. *)
Lemma hit_ref_present shot s (objs : list E) pre suf :
  NoDup (ids (pre ++ s :: suf)) -> py_id s = py_id shot ->
  visit_ref (hit_visit shot) objs (pre ++ s :: suf) =
    Ok (fst (kill_ref shot objs),
        if (snd (kill_ref shot objs) =? 0)%nat then pre ++ s :: suf else pre ++ suf).
Proof.
  intros Hnd Hs. destruct (NoDup_ids_split _ _ _ Hnd) as (Hpre & Hsuf & _).
  assert (Habs : py_id shot ∉ ids (pre ++ suf)).
  { rewrite ids_app, <- Hs. intros [?|?]%elem_of_app; contradiction. }
  induction objs as [objs IH] using (induction_ltof1 _ (@length _)).
  unfold ltof in IH. destruct objs as [|o r]; simpl; [done|].
  unfold hit_visit at 1. destruct (Shot.collision shot o); simpl.
  - rewrite (py_in_app_cons shot s pre suf Hs), (py_remove_app shot s) by (by rewrite <- Hs || done).
    simpl. destruct r as [|o2 r']; [done|].
    rewrite hit_ref_absent by done. simpl. by destruct (kill_ref shot r').
  - rewrite IH by (simpl; lia). simpl. by destruct (kill_ref shot r).
Qed.

(** When every enemy overlaps the shot, every other one is removed,
    starting with the first. *)
Lemma kill_ref_all_collide shot (objs : list E) :
  Forall (fun o => Shot.collision shot o = true) objs ->
  snd (kill_ref shot objs) = Nat.div2 (S (length objs)).
Proof.
  induction objs as [objs IH] using (induction_ltof1 _ (@length _)). unfold ltof in IH.
  intros Hall. destruct objs as [|o [|o2 r']]; simpl; [done| |].
  - by rewrite (Forall_inv Hall).
  - rewrite (Forall_inv Hall). apply Forall_inv_tail, Forall_inv_tail in Hall as Hr.
    specialize (IH r' ltac:(simpl; lia) Hr). destruct (kill_ref shot r') as [l k].
    simpl in *. by rewrite IH.
Qed.

(** C13: What the inner loop [for obj in objs] (lines 108-112) does to
    the enemies and to [self.shots] for a shot that is in
    [self.shots]: it returns, the enemies it removes all overlap the
    shot (with those left they are a permutation of the list before,
    and those left keep their order), the shot leaves [self.shots]
    exactly when something was hit, and when every enemy overlaps the
    shot it removes [(n + 1) / 2] of the [n] enemies: more than one
    as soon as there are three, yet not all of them. *)
Theorem hit_loop_kills shot (objs : list E) pre s suf :
  NoDup (ids objs) -> NoDup (ids (pre ++ s :: suf)) -> py_id s = py_id shot ->
  exists objs' killed,
    py_for fst (hit_body shot) (objs, pre ++ s :: suf) =
      Ok (objs', match killed with [] => pre ++ s :: suf | _ :: _ => pre ++ suf end) /\
    objs ≡ₚ objs' ++ killed /\ objs' `sublist_of` objs /\
    Forall (fun o => Shot.collision shot o = true) killed /\
    (Forall (fun o => Shot.collision shot o = true) objs ->
     length killed = ((length objs + 1) / 2)%nat).
Proof.
  intros Ho Hs Hid. rewrite hit_loop_ref, (hit_ref_present shot s objs pre suf) by done.
  destruct (kill_ref_perm shot objs) as (killed & Hp & Hf & Hl).
  exists (fst (kill_ref shot objs)), killed.
  split; [by rewrite <- Hl; destruct killed|]. split; [done|].
  split; [apply kill_ref_sublist|]. split; [done|].
  intros Hall. rewrite Hl, kill_ref_all_collide, Nat.div2_div by done. f_equal. lia.
Qed.

(** ** The outer loop *)

Lemma kills_visit_id vel x b x' d b' :
  move_shot_visit vel x b = Ok (x', d, b') -> py_id x' = py_id x.
Proof.
  unfold move_shot_visit. case_match; [intros [= <- _ _]; reflexivity|].
  destruct (kill_ref _ _). intros [= <- _ _]. reflexivity.
Qed.

Lemma move_shot_visit_inv vel x (b : list E) x' d b' :
  NoDup (ids b) -> move_shot_visit vel x b = Ok (x', d, b') -> NoDup (ids b').
Proof.
  unfold move_shot_visit. intros Hnd. case_match; [intros [= _ _ <-]; done|].
  pose proof (kill_ref_sublist (Shot.move vel x) b) as Hs.
  destruct (kill_ref _ _) as [l k]. intros [= _ _ <-].
  by apply (NoDup_ids_sublist _ b).
Qed.

Lemma kills_body_spec vel pre x suf (b : list E) :
  NoDup (ids (pre ++ x :: suf)) -> NoDup (ids b) ->
  move_shot_body vel x (pre ++ x :: suf, b) =
    let? '(x', drop, b') := move_shot_visit vel x b in
    Ok (pre ++ (if drop then suf else x' :: suf), b').
Proof.
  intros Hnd Hb. destruct (NoDup_ids_split _ _ _ Hnd) as (Hpre & Hsuf & _).
  unfold move_shot_body, move_shot_visit.
  rewrite (py_update_app (Shot.move vel x) x) by done.
  destruct (Shot.off_screen _ _); simpl.
  { by rewrite (py_remove_app (Shot.move vel x) (Shot.move vel x)). }
  rewrite hit_loop_ref, (hit_ref_present _ (Shot.move vel x))
    by (done || by apply (NoDup_ids_replace _ _ x)).
  destruct (kill_ref _ _) as [l k]. simpl. by destruct k.
Qed.

Lemma kills_loop_ref vel (objs : list E) p :
  NoDup (ids (shots (p_ch p))) -> NoDup (ids objs) ->
  move_shot vel objs p =
    let? '(l', objs') := visit_ref (move_shot_visit vel) (shots (p_ch p)) objs in
    Ok ({| p with p_ch := {| (Character.cooldown (p_ch p)) with shots := l' |} |}, objs').
Proof.
  intros Hs Ho. unfold move_shot. rewrite Character.cooldown_shots.
  rewrite (py_for_visit _ (kills_visit_id vel) _ (fun b => NoDup (ids b))
             (fun _ _ _ _ _ Hb Hv => move_shot_visit_inv _ _ _ _ _ _ Hb Hv)
             (kills_body_spec vel)) by done.
  by destruct (visit_ref _ _ _) as [[l' o']|e].
Qed.

(** C5: [Player.move_shot], two nested Python loops that both remove
    from the lists they iterate, computes the structural reference
    [visit_ref] of [move_shot_visit] (move the shot, drop it if off
    screen, else let [kill_ref] remove the enemies it hits). *)
Theorem move_shot_kills_ref vel (objs : list E) p :
  NoDup (ids (shots (p_ch p))) -> NoDup (ids objs) ->
  move_shot vel objs p =
    let? '(l', objs') := visit_ref (move_shot_visit vel) (shots (p_ch p)) objs in
    Ok ({| p with p_ch := {| (Character.cooldown (p_ch p)) with shots := l' |} |}, objs').
Proof. apply kills_loop_ref. Qed.

(** What [Player.move_shot] changes: the player's cooldown and shots
    (a sublist by identity), and the enemy list (a sublist). *)
Lemma move_shot_kills_frame vel (objs : list E) p p' objs' :
  NoDup (ids (shots (p_ch p))) -> NoDup (ids objs) ->
  move_shot vel objs p = Ok (p', objs') ->
  p' = {| p with p_ch := {| (Character.cooldown (p_ch p)) with shots := shots (p_ch p') |} |} /\
  ids (shots (p_ch p')) `sublist_of` ids (shots (p_ch p)) /\ objs' `sublist_of` objs.
Proof.
  intros Hs Ho. rewrite kills_loop_ref by done.
  destruct (visit_ref _ _ _) as [[l' o']|e] eqn:Hr; simpl; [|done].
  intros [= <- <-]. split; [done|]. split.
  - exact (visit_ref_ids_sublist _ (kills_visit_id vel) _ _ _ _ Hr).
  - refine (visit_ref_rel _ (flip sublist) _ _ _ _ _ Hr).
    intros x b x' d b'. unfold move_shot_visit. case_match; [intros [= _ _ <-]; done|].
    pose proof (kill_ref_sublist (Shot.move vel x) b).
    destruct (kill_ref _ _). intros [= _ _ <-]. done.
Qed.

Lemma kills_returns vel (objs : list E) p :
  NoDup (ids (shots (p_ch p))) -> NoDup (ids objs) ->
  exists p' objs', move_shot vel objs p = Ok (p', objs').
Proof.
  intros Hs Ho. rewrite kills_loop_ref by done.
  destruct (visit_ref_total (move_shot_visit vel) (shots (p_ch p)) objs) as [[l' o'] ->].
  - intros x b. unfold move_shot_visit. case_match; [eauto|]. destruct (kill_ref _ _). eauto.
  - simpl. eauto.
Qed.

(** C7: [Player.move_shot] never raises: every [objs.remove(obj)] finds
    its enemy, and the guard [if shot in self.shots] keeps a shot that
    hits several enemies from being removed twice. *)
Theorem move_shot_kills_total vel (objs : list E) p :
  NoDup (ids (shots (p_ch p))) -> NoDup (ids objs) ->
  exists p' objs', move_shot vel objs p = Ok (p', objs').
Proof. apply kills_returns. Qed.
(** C12: Refinement of the guarantee of the specification (section 4.2)
    by the outer loop of [Player.move_shot]: every shot is evaluated at
    most once and removed at most once; each shot is either moved and
    tested against the enemies once (kept or removed, with the enemies
    it kills removed) or left as it was. *)
Theorem move_shot_kills_at_most_once vel (objs : list E) p p' objs' :
  NoDup (ids (shots (p_ch p))) -> NoDup (ids objs) ->
  move_shot vel objs p = Ok (p', objs') ->
  at_most_once (move_shot_visit vel) (shots (p_ch p)) objs (shots (p_ch p')) objs'.
Proof.
  intros Hs Ho. rewrite kills_loop_ref by done.
  destruct (visit_ref _ _ _) as [[l' o']|e] eqn:Hr; simpl; [|done].
  intros [= <- <-]. by apply visit_ref_at_most_once.
Qed.
End MoveShotTheorems.

(** C28: The green bar of [health_bar] gets a negative width exactly when
    the health is negative: the code does not clamp the ratio
    [health / max_health] at zero. *)
Theorem health_bar_negative {AS : Assets} (p : Player) :
  0 < max_health p -> 0 < img_width (char_img (p_ch p)) ->
  (health_bar_width p < 0)%Q <-> health (p_ch p) < 0.
Proof.
  intros Hm Hw. unfold health_bar_width.
  destruct (max_health p) as [|m|m]; [lia| |lia].
  unfold Qlt, Qmult, Qdiv, Qinv, inject_Z. simpl. nia.
Qed.

(** ** Concrete runs *)

Section Witnesses.
#[local] Existing Instance demo_assets.

(** Three enemies stacked on the path of one player shot. *)
Local Abbreviation e1 := (Character.init 21 370 400 100 SATAN SATAN_SHOT).
Local Abbreviation e2 := (Character.init 22 375 400 100 JUDAS JUDAS_SHOT).
Local Abbreviation e3 := (Character.init 23 380 400 100 CENTURION CENTURION_SHOT).
Local Abbreviation shot := (Shot.init 30 400 450 JESUS_SHOT).
Local Abbreviation player := ({| (init 1 370 570 100) with
   p_ch := {| (p_ch (init 1 370 570 100)) with shots := [shot] |} |}).

Lemma move_shot_kills_ref_witness :
  move_shot (-10) [e1; e2; e3] player =
    let? '(l', objs') := visit_ref (move_shot_visit (-10)) [shot] [e1; e2; e3] in
    Ok ({| player with p_ch := {| (Character.cooldown (p_ch player)) with shots := l' |} |}, objs').
Proof. apply move_shot_kills_ref; decide_concrete. Defined.

(** One shot of the player removes two of the three enemies in a single
    frame: [e1] and [e3]; [e2], right after [e1], is passed over. *)
Lemma move_shot_kills_total_witness :
  exists p' objs', move_shot (-10) [e1; e2; e3] player = Ok (p', objs') /\ objs' = [e2].
Proof.
  destruct (move_shot_kills_total (-10) [e1; e2; e3] player) as (p' & objs' & Hm);
    [decide_concrete | decide_concrete |].
  exists p', objs'. split; [exact Hm|].
  vm_compute in Hm. injection Hm as _ <-. reflexivity.
Defined.

(** The shot after its move, over the three enemies: it hits all three
    and removes [e1] and [e3]. *)
Lemma hit_loop_kills_witness :
  exists objs' killed,
    py_for fst (hit_body (Shot.move (-10) shot)) ([e1; e2; e3], [] ++ Shot.move (-10) shot :: []) =
      Ok (objs', match killed with [] => [] ++ Shot.move (-10) shot :: [] | _ :: _ => [] ++ [] end) /\
    [e1; e2; e3] ≡ₚ objs' ++ killed /\ objs' `sublist_of` [e1; e2; e3] /\
    Forall (fun o => Shot.collision (Shot.move (-10) shot) o = true) killed /\
    (Forall (fun o => Shot.collision (Shot.move (-10) shot) o = true) [e1; e2; e3] ->
     length killed = ((length [e1; e2; e3] + 1) / 2)%nat).
Proof. apply hit_loop_kills; [decide_concrete|decide_concrete|reflexivity]. Defined.

Lemma health_bar_negative_witness :
  (health_bar_width (set_health (-40) (init 1 370 570 100)) < 0)%Q.
Proof. apply health_bar_negative; vm_compute; reflexivity. Defined.
Local Abbreviation kills_out :=
  (match move_shot (-10) [e1; e2; e3] player with Ok r => r | Err _ => (player, []) end).

Lemma move_shot_kills_at_most_once_witness :
  at_most_once (move_shot_visit (-10)) (shots (p_ch player)) [e1; e2; e3]
    (shots (p_ch (fst kills_out))) (snd kills_out).
Proof.
  apply (move_shot_kills_at_most_once (-10) [e1; e2; e3] player);
    [decide_concrete|decide_concrete|vm_compute; reflexivity].
Defined.
End Witnesses.

End Player.
