(* ===== verification/Enemy.v ===== *)
(** * Enemy: class [Enemy] (src/main.py, lines 128-141)

    An enemy is a [Character] (it adds only the mask of its image, which
    the [Sprite] instance of [Character] already provides).  Its images
    come from the dict [ENEMY_MAP], modelled as a [gmap string]; an
    unknown key makes the constructor raise [KeyError].

    Theorems: construction succeeds exactly for the three keys of the
    catalog, with the catalog's images, full health, no shots and a
    ready cooldown, and raises [KeyError] for any other key
    ([init_spec]). *)

From stdpp Require Import gmap strings.
From S2P Require Import Prelude Collision Shot Character.
Local Open Scope Z_scope.

(** [class Enemy(Character)]: an enemy object is a character object. *)
Abbreviation Enemy := Character.

Module Enemy.

(** [ENEMY_MAP] (lines 129-133). *)
Definition ENEMY_MAP : gmap string (Img * Img) :=
  <["satan" := (SATAN, SATAN_SHOT)]> (<["judas" := (JUDAS, JUDAS_SHOT)]>
    (<["centurion" := (CENTURION, CENTURION_SHOT)]> ∅)).

(** [Enemy.__init__(x, y, enemy, health=100)] (lines 135-138):
    [self.ENEMY_MAP[enemy]] raises [KeyError] for an unknown key. *)
Definition init (oid : nat) (x y : Z) (enemy : string) : res Enemy :=
  match ENEMY_MAP !! enemy with
  | Some (ci, si) => Ok (Character.init oid x y 100 ci si)
  | None => Err KeyError
  end.

(** [Enemy.move] (lines 140-141). *)
Definition move (vel : Z) (e : Enemy) : Enemy := {| e with ch_y := ch_y e + vel |}.

(** The keys [random.choice] draws from (line 217). *)
Definition kinds : list string := ["satan"; "judas"; "centurion"].

Lemma ENEMY_MAP_lookup k :
  ENEMY_MAP !! k =
    if decide (k = "satan") then Some (SATAN, SATAN_SHOT)
    else if decide (k = "judas") then Some (JUDAS, JUDAS_SHOT)
    else if decide (k = "centurion") then Some (CENTURION, CENTURION_SHOT)
    else None.
Proof.
  unfold ENEMY_MAP. rewrite !lookup_insert, lookup_empty.
  repeat case_decide; congruence.
Qed.

Lemma init_cases oid x y k :
  (k ∈ kinds ->
     exists ci si, ENEMY_MAP !! k = Some (ci, si) /\
       init oid x y k = Ok {| ch_oid := oid; ch_x := x; ch_y := y; health := 100;
                              char_img := ci; shot_img := si; shots := [];
                              cool_down_counter := 0 |}) /\
  (k ∉ kinds -> init oid x y k = Err KeyError).
Proof.
  unfold init. rewrite ENEMY_MAP_lookup. unfold kinds. split.
  - intros Hk. repeat case_decide; eauto; set_solver.
  - intros Hk. repeat case_decide; [set_solver..|done].
Qed.

(** C35: [Enemy(x, y, enemy)] succeeds exactly when [enemy] is one of the
    three catalog keys, and then builds an enemy at [(x, y)] with health
    100, no shots, a ready cooldown and the images the catalog binds to
    the key; for any other key it raises [KeyError]. *)
Theorem init_spec oid x y k :
  (k ∈ kinds ->
     exists ci si, ENEMY_MAP !! k = Some (ci, si) /\
       init oid x y k = Ok {| ch_oid := oid; ch_x := x; ch_y := y; health := 100;
                              char_img := ci; shot_img := si; shots := [];
                              cool_down_counter := 0 |}) /\
  (k ∉ kinds -> init oid x y k = Err KeyError).
Proof. apply init_cases. Qed.

Lemma init_spec_witness :
  (exists ci si, ENEMY_MAP !! "judas" = Some (ci, si) /\
     init 5 100 (-50) "judas" =
       Ok {| ch_oid := 5; ch_x := 100; ch_y := -50; health := 100; char_img := ci;
             shot_img := si; shots := []; cool_down_counter := 0 |}) /\
  init 6 100 (-50) "pilate" = Err KeyError.
Proof.
  split.
  - apply (init_spec 5 100 (-50) "judas"). unfold kinds. set_solver.
  - apply (init_spec 6 100 (-50) "pilate"). unfold kinds. set_solver.
Defined.

End Enemy.
