(* ===== verification/Game.v ===== *)
(** * Game: the session of [main] (src/main.py, lines 150-252)

    The local variables of [main] that change are the session state
    [World]: [run], [level], [resurrections], the [player], the list
    [enemies], [wave_length], [lost], [lost_count]; the world also holds
    the stream of random draws [rng] and the next free object identity
    [next_oid].  One iteration of [while run:] is [main_frame], composed
    of one definition per block of the loop body, in the order of the
    code:

    - [respawn] (lines 198-200), [check_lost] (lines 202-204), the
      [lost] gate (lines 206-210, in [main_frame]);
    - [play_frame] (lines 212-252), the rest of the frame:
      [spawn_wave] (lines 212-219), with [spawn_loop] for the
      [for i in range(wave_length)] loop; the quit test on the events
      (lines 221-223); [handle_keys] (lines 225-235); [enemies_step]
      (lines 237-250), [enemy_step] = [enemy_advance] then
      [enemy_resolve] for each enemy of the copy [enemies[:]];
      [Player.move_shot] (line 252).

    [main_loop] runs the frames for a list of inputs while [run] holds.
    Randomness is the oracle [rng]: [randrange a b] consumes one draw [r]
    and returns [a + r mod (b - a)], so every draw lies in [[a, b)].
    The per-frame inputs are [Input]: the pending events and the keys.

    Theorems of this file: the effect of the blocks ([spawn_wave_spec],
    [handle_keys_bounds], [enemy_resolve_spec]), the round trip of
    opposite keys ([handle_keys_roundtrip]) and the resurrection
    bookkeeping of a frame ([frame_last_life]).  The invariants and the
    safety and liveness of the loop are in [GameSafety.v]. *)

From stdpp Require Import gmap strings.
From S2P Require Import Prelude PyLoop Collision Shot Character Player Enemy.
Local Open Scope Z_scope.

(** ** Randomness *)

(** [random] as an oracle: one raw draw per call. *)
Definition randbelow (n : Z) (rs : list Z) : Z * list Z :=
  match rs with
  | [] => (0, [])
  | r :: rs' => (r mod n, rs')
  end.

(** [random.randrange(a, b)]. *)
Definition randrange (a b : Z) (rs : list Z) : Z * list Z :=
  let '(r, rs') := randbelow (b - a) rs in (a + r, rs').

(** [random.choice(seq)] on a non-empty list. *)
Definition choice (l : list string) (rs : list Z) : string * list Z :=
  let '(r, rs') := randbelow (Z.of_nat (length l)) rs in
  (nth (Z.to_nat r) l ""%string, rs').

(** ** Inputs *)

Inductive event := QUIT | MOUSEBUTTONDOWN | OTHER_EVENT.

Definition is_quit (e : event) : bool := match e with QUIT => true | _ => false end.

(** What [pygame.event.get()] and [pygame.key.get_pressed()] return in a
    frame. *)
Record Input := mkInput {
  events : list event;
  key_a : bool;
  key_d : bool;
  key_w : bool;
  key_s : bool;
  key_space : bool
}.

Definition no_input : Input :=
  {| events := []; key_a := false; key_d := false; key_w := false; key_s := false;
     key_space := false |}.

(** ** The session state *)

Record World := mkWorld {
  run : bool;
  level : Z;
  resurrections : Z;
  player : Player;
  enemies : list Enemy;
  wave_length : Z;
  lost : bool;
  lost_count : Z;
  rng : list Z;
  next_oid : nat
}.

Module Game.

(** The constants of [main] (lines 152, 158, 163, 165). *)
Definition fps : Z := 60.
Definition player_vel : Z := 10.
Definition enemy_vel : Z := 2.
Definition shot_vel : Z := 5.

(** The state [main] starts with (lines 151-170); object 0 is the player. *)
Definition init_world (rs : list Z) : World :=
  {| run := true; level := 0; resurrections := 9; player := Player.init 0 370 570 100;
     enemies := []; wave_length := 5; lost := false; lost_count := 0; rng := rs;
     next_oid := 1 |}.

Section Frame.
Context {AS : Assets}.

(** Lines 198-200. *)
Definition respawn (w : World) : World :=
  if health (p_ch (player w)) <=? 0 then
    {| w with resurrections := resurrections w - 1;
              player := set_health (max_health (player w)) (player w) |}
  else w.

(** Lines 202-204. *)
Definition check_lost (w : World) : World :=
  if resurrections w <=? 0 then {| w with lost := true; lost_count := lost_count w + 1 |}
  else w.

(** The body of [for i in range(wave_length)] (lines 215-219), [n]
    times. *)
Fixpoint spawn_loop (n : nat) (w : World) : res World :=
  match n with
  | O => Ok w
  | S n' =>
      let '(x, rs1) := randrange 50 (WIDTH - 100) (rng w) in
      let '(y, rs2) := randrange (-1500) (-100) rs1 in
      let '(k, rs3) := choice ["satan"; "judas"; "centurion"]%string rs2 in
      let? enemy := Enemy.init (next_oid w) x y k in
      spawn_loop n' {| w with enemies := enemies w ++ [enemy]; rng := rs3;
                              next_oid := S (next_oid w) |}
  end.

(** Lines 212-219. *)
Definition spawn_wave (w : World) : res World :=
  match enemies w with
  | [] =>
      let w := {| w with level := level w + 1; wave_length := wave_length w + 3 |} in
      spawn_loop (Z.to_nat (wave_length w)) w
  | _ :: _ => Ok w
  end.

(** The player moved to [(x, y)]. *)
Definition set_pos (x y : Z) (p : Player) : Player :=
  {| p with p_ch := {| (p_ch p) with ch_x := x; ch_y := y |} |}.

(** Lines 225-235: each key test reads the position the previous one
    left. *)
Definition handle_keys (inp : Input) (w : World) : World :=
  let p := player w in
  let wd := img_width (char_img (p_ch p)) in
  let ht := img_height (char_img (p_ch p)) in
  let x := ch_x (p_ch p) in
  let y := ch_y (p_ch p) in
  let x := if key_a inp && (-30 <=? x - player_vel) then x - player_vel else x in
  let x := if key_d inp && (x + player_vel + wd <=? WIDTH + 30) then x + player_vel else x in
  let y := if key_w inp && (0 <=? y - player_vel) then y - player_vel else y in
  let y := if key_s inp && (y + player_vel + ht <=? HEIGHT - 30) then y + player_vel else y in
  let p := set_pos x y p in
  if key_space inp then
    {| w with player := {| p with p_ch := Character.shoot (next_oid w) (p_ch p) |};
              next_oid := S (next_oid w) |}
  else {| w with player := p |}.

(** Lines 238-242: the enemy moves, its shots move against the player,
    and it fires with probability 1/240.  The enemy object is shared
    by the copy [enemies[:]] and by [enemies]: each mutation of it is
    written back with [py_update]. *)
Definition enemy_advance (w : World) (enemy : Enemy) : res (Enemy * World) :=
  let enemy := Enemy.move enemy_vel enemy in
  let w := {| w with enemies := py_update enemy (enemies w) |} in
  let? '(enemy, p) := Character.move_shot shot_vel (player w) enemy in
  let w := {| w with enemies := py_update enemy (enemies w); player := p |} in
  let '(r, rs) := randrange 0 (4 * fps) (rng w) in
  let w := {| w with rng := rs |} in
  if r =? 1 then
    let enemy := Character.shoot (next_oid w) enemy in
    Ok (enemy, {| w with enemies := py_update enemy (enemies w); next_oid := S (next_oid w) |})
  else Ok (enemy, w).

(** Lines 244-250: a body collision costs the player 50 health, an
    enemy below [HEIGHT + 155] costs a resurrection; either way the
    enemy is removed from [enemies]. *)
Definition enemy_resolve (w : World) (enemy : Enemy) : res World :=
  if collide enemy (player w) then
    let p := set_health (get_health (player w) - 50) (player w) in
    let? es := py_remove enemy (enemies w) in
    Ok {| w with player := p; enemies := es |}
  else if HEIGHT + 155 <? ch_y enemy + img_height (char_img enemy) then
    let? es := py_remove enemy (enemies w) in
    Ok {| w with resurrections := resurrections w - 1; enemies := es |}
  else Ok w.

(** The body of [for enemy in enemies[:]] (lines 238-250). *)
Definition enemy_step (w : World) (enemy : Enemy) : res World :=
  let? '(enemy, w) := enemy_advance w enemy in enemy_resolve w enemy.

(** Lines 237-250: the loop runs over a copy of the list. *)
Definition enemies_step (w : World) : res World := res_fold enemy_step (enemies w) w.

(** Lines 212-252: the gameplay part of a frame, which runs unless the
    [lost] gate ended the iteration with [continue]. *)
Definition play_frame (inp : Input) (w : World) : res World :=
  let? w := spawn_wave w in
  if existsb is_quit (events inp) then Err SystemExit
  else
    let w := handle_keys inp w in
    let? w := enemies_step w in
    let? '(p, es) := Player.move_shot (- shot_vel * 2) (enemies w) (player w) in
    Ok {| w with player := p; enemies := es |}.

(** One iteration of [while run:] (lines 195-252); [clock.tick] and
    [redraw_window] only wait and draw.  When [lost_count] exceeds
    [fps * 3] the code sets [run = False] and still plays the rest of
    that frame. *)
Definition main_frame (inp : Input) (w : World) : res World :=
  let w := respawn w in
  let w := check_lost w in
  if lost w && negb (fps * 3 <? lost_count w) then Ok w
  else play_frame inp (if lost w then {| w with run := false |} else w).

(** [while run: ...] for the given frames' inputs. *)
Fixpoint main_loop (inputs : list Input) (w : World) : res World :=
  match inputs with
  | [] => Ok w
  | inp :: rest =>
      if run w then let? w' := main_frame inp w in main_loop rest w' else Ok w
  end.
End Frame.

(** What the spawn loop promises of each new enemy (lines 216-218). *)
Definition spawned_ok (e : Enemy) : Prop :=
  50 <= ch_x e < WIDTH - 100 /\ -1500 <= ch_y e < -100 /\ health e = 100 /\
  shots e = [] /\ cool_down_counter e = 0 /\
  exists k, k ∈ Enemy.kinds /\ Enemy.ENEMY_MAP !! k = Some (char_img e, shot_img e).

(** The player's rectangle within the bounds the key handler enforces
    (lines 226-233). *)
Definition in_bounds {AS : Assets} (p : Player) : Prop :=
  -30 <= ch_x (p_ch p) /\ ch_x (p_ch p) + img_width (char_img (p_ch p)) <= WIDTH + 30 /\
  0 <= ch_y (p_ch p) /\ ch_y (p_ch p) + img_height (char_img (p_ch p)) <= HEIGHT - 30.

(** ** Randomness *)

Lemma randrange_bound a b rs : a < b -> a <= fst (randrange a b rs) < b.
Proof.
  intros Hab. unfold randrange, randbelow. destruct rs as [|r rs]; simpl; [lia|].
  pose proof (Z.mod_pos_bound r (b - a) ltac:(lia)). lia.
Qed.

Lemma choice_in l rs : l <> [] -> fst (choice l rs) ∈ l.
Proof.
  intros Hl. apply list_elem_of_In. destruct l as [|x l]; [done|]. unfold choice, randbelow.
  destruct rs as [|r rs]; cbn [fst]; apply nth_In; simpl; [lia|].
  pose proof (Z.mod_pos_bound r (Z.of_nat (S (length l))) ltac:(lia)). lia.
Qed.

Section FrameTheorems.
Context {AS : Assets}.

Lemma spawn_loop_spec n w :
  exists new rs,
    spawn_loop n w =
      Ok {| w with enemies := enemies w ++ new; rng := rs; next_oid := (next_oid w + n)%nat |} /\
    length new = n /\ ids new = seq (next_oid w) n /\ Forall spawned_ok new.
Proof.
  revert w. induction n as [|n IH]; intros w; simpl.
  { exists [], (rng w). rewrite app_nil_r, Nat.add_0_r. by destruct w. }
  destruct (randrange 50 (WIDTH - 100) (rng w)) as [x rs1] eqn:Hx.
  destruct (randrange (-1500) (-100) rs1) as [y rs2] eqn:Hy.
  destruct (choice _ rs2) as [k rs3] eqn:Hk.
  pose proof (randrange_bound 50 (WIDTH - 100) (rng w)) as Bx. rewrite Hx in Bx.
  pose proof (randrange_bound (-1500) (-100) rs1) as By. rewrite Hy in By.
  pose proof (choice_in ["satan"; "judas"; "centurion"]%string rs2) as Ck. rewrite Hk in Ck.
  destruct (proj1 (Enemy.init_cases (next_oid w) x y k)) as (ci & si & Hmap & ->); [by apply Ck|].
  simpl. match goal with |- context [spawn_loop n ?w1] =>
    destruct (IH w1) as (new & rs & -> & Hlen & Hids & Hok) end.
  simpl in *. eexists (_ :: new), rs. split; [|split; [simpl; lia|split]].
  - rewrite <- app_assoc. simpl. do 2 f_equal. lia.
  - simpl. by rewrite Hids.
  - constructor; [|done]. unfold spawned_ok. simpl. unfold WIDTH in *.
    split_and!; try lia; [done|]. exists k. split; [first [exact Ck | apply Ck; discriminate]|exact Hmap].
Qed.

Lemma spawn_wave_eq w :
  enemies w = [] ->
  exists new rs,
    spawn_wave w =
      Ok {| w with level := level w + 1; wave_length := wave_length w + 3; enemies := new;
                   rng := rs; next_oid := (next_oid w + Z.to_nat (wave_length w + 3))%nat |} /\
    length new = Z.to_nat (wave_length w + 3) /\
    ids new = seq (next_oid w) (Z.to_nat (wave_length w + 3)) /\ Forall spawned_ok new.
Proof.
  intros He. unfold spawn_wave. rewrite He.
  match goal with |- context [spawn_loop ?n ?w1] =>
    destruct (spawn_loop_spec n w1) as (new & rs & -> & Hlen & Hids & Hok) end.
  exists new, rs. simpl in *. split; [by destruct w | done].
Qed.

(** C17: Wave replenishment: when the field is empty, [spawn_wave] never
    raises, increments [level], increases [wave_length] by 3 and
    replaces the empty enemy list by exactly [wave_length] new enemies
    (the new value) with fresh identities, each at full health,
    without shots and with a ready cooldown, at an [x] in
    [[50, WIDTH - 100)] and a [y] in [[-1500, -100)], above the field,
    with the two images [ENEMY_MAP] binds to one of the three kinds. *)
Theorem spawn_wave_spec w :
  enemies w = [] ->
  exists new rs,
    spawn_wave w =
      Ok {| w with level := level w + 1; wave_length := wave_length w + 3; enemies := new;
                   rng := rs; next_oid := (next_oid w + Z.to_nat (wave_length w + 3))%nat |} /\
    length new = Z.to_nat (wave_length w + 3) /\
    ids new = seq (next_oid w) (Z.to_nat (wave_length w + 3)) /\ Forall spawned_ok new.
Proof. apply spawn_wave_eq. Qed.

(** C21: The key handler keeps the player inside the playing area: if
    the player's rectangle is within the bounds of lines 226-233 before
    the keys are handled, it still is after. *)
Theorem handle_keys_bounds inp w :
  in_bounds (player w) -> in_bounds (player (handle_keys inp w)).
Proof.
  unfold in_bounds, handle_keys, player_vel. intros Hb.
  destruct (key_space inp); simpl; unfold Character.shoot; [case_match|]; simpl;
    repeat (case_match; simpl); case_bool_Z; simpl in *; lia.
Qed.

(** C18: Resolution of an enemy that is in [enemies] (lines 244-250):
    on a body collision the player loses exactly 50 health and the
    enemy is removed; otherwise, if the enemy is below [HEIGHT + 155],
    one resurrection is lost and the enemy is removed; otherwise nothing
    changes.  The enemy removed is the first element of [enemies] with
    the identity of [enemy], and only it: the list before it and after
    it is kept in order.  No [ValueError]. *)
Theorem enemy_resolve_spec w e pre e' suf :
  enemies w = pre ++ e' :: suf -> py_id e' = py_id e -> py_id e ∉ ids pre ->
  enemy_resolve w e =
    Ok (if collide e (player w) then
          {| w with player := set_health (get_health (player w) - 50) (player w);
                    enemies := pre ++ suf |}
        else if HEIGHT + 155 <? ch_y e + img_height (char_img e) then
          {| w with resurrections := resurrections w - 1; enemies := pre ++ suf |}
        else w).
Proof.
  intros Hes Hid Hpre. unfold enemy_resolve.
  rewrite Hes, (py_remove_app e e' pre suf Hpre Hid). by repeat case_match.
Qed.

(** C19: Resurrection bookkeeping: with one resurrection left and the
    player's health at or below zero, a frame takes the last
    resurrection, restores the health to [max_health], enters the
    [lost] state and suspends the rest of the frame. *)
Theorem frame_last_life inp w :
  resurrections w = 1 -> health (p_ch (player w)) <= 0 ->
  lost w = false -> lost_count w = 0 ->
  main_frame inp w =
    Ok {| w with resurrections := 0;
                 player := set_health (max_health (player w)) (player w);
                 lost := true; lost_count := 1 |}.
Proof.
  intros Hr Hh Hl Hc. unfold main_frame, respawn, check_lost.
  destruct (Z.leb_spec (health (p_ch (player w))) 0); [|lia]. simpl.
  rewrite Hr, Hc. simpl. by destruct w.
Qed.
(** The player set back at its own position is the same player. *)
Lemma set_pos_same p : set_pos (ch_x (p_ch p)) (ch_y (p_ch p)) p = p.
Proof. by destruct p as [[] ?]. Qed.

(** C22: Round trip of the key handler: with [A] and [D] held together
    (and [W] and [S] together, or neither), a player that can take the
    first step of each pair ends the frame where it started: [A] moves it
    left by [player_vel] and [D], which reads the new position, moves it
    back, the bound of [D] holding because the player was within the
    field; nothing else changes when the fire key is not held. *)
Theorem handle_keys_roundtrip inp w :
  key_a inp = true -> key_d inp = true -> key_w inp = key_s inp -> key_space inp = false ->
  in_bounds (player w) -> -30 <= ch_x (p_ch (player w)) - player_vel ->
  (key_w inp = true -> 0 <= ch_y (p_ch (player w)) - player_vel) ->
  handle_keys inp w = w.
Proof.
  intros Ha Hd Hws Hsp (Hx1 & Hx2 & Hy1 & Hy2) Hxa Hyw. unfold handle_keys.
  rewrite Ha, Hd, Hsp, <- Hws. unfold player_vel in *. simpl.
  destruct (Z.leb_spec (-30) (ch_x (p_ch (player w)) - 10)); [|lia]. simpl.
  destruct (Z.leb_spec (ch_x (p_ch (player w)) - 10 + 10 + img_width (char_img (p_ch (player w))))
              (WIDTH + 30)); [|lia]. simpl.
  replace (ch_x (p_ch (player w)) - 10 + 10) with (ch_x (p_ch (player w))) by lia.
  destruct (key_w inp); simpl.
  - specialize (Hyw eq_refl).
    destruct (Z.leb_spec 0 (ch_y (p_ch (player w)) - 10)); [|lia]. simpl.
    destruct (Z.leb_spec (ch_y (p_ch (player w)) - 10 + 10 + img_height (char_img (p_ch (player w))))
                (HEIGHT - 30)); [|lia]. simpl.
    replace (ch_y (p_ch (player w)) - 10 + 10) with (ch_y (p_ch (player w))) by lia.
    rewrite set_pos_same. by destruct w.
  - rewrite set_pos_same. by destruct w.
Qed.
End FrameTheorems.

(** ** Concrete runs *)

Section Witnesses.
#[local] Existing Instance demo_assets.

Local Abbreviation w0 := (init_world []).
Local Abbreviation all_keys :=
  {| events := []; key_a := true; key_d := true; key_w := true; key_s := true; key_space := true |}.
(** An enemy right on top of the player at its start position. *)
Local Abbreviation e_on := (Character.init 7 370 560 100 SATAN SATAN_SHOT).
(** An enemy far from the player. *)
Local Abbreviation e_far := (Character.init 8 100 50 100 SATAN SATAN_SHOT).
(** The last life, with the player's health below zero. *)
Local Abbreviation w_dying :=
  {| w0 with resurrections := 1; player := set_health (-20) (player w0) |}.

Lemma spawn_wave_spec_witness :
  exists new rs,
    spawn_wave w0 =
      Ok {| w0 with level := level w0 + 1; wave_length := wave_length w0 + 3; enemies := new;
                    rng := rs; next_oid := (next_oid w0 + Z.to_nat (wave_length w0 + 3))%nat |} /\
    length new = Z.to_nat (wave_length w0 + 3) /\
    ids new = seq (next_oid w0) (Z.to_nat (wave_length w0 + 3)) /\ Forall spawned_ok new.
Proof. apply spawn_wave_spec. reflexivity. Defined.

Lemma handle_keys_bounds_witness : in_bounds (player (handle_keys all_keys w0)).
Proof. apply handle_keys_bounds. unfold in_bounds, img_width, img_height, WIDTH, HEIGHT. simpl. lia. Defined.

(** [e_on] in front of a second enemy: only [e_on] goes. *)
Lemma enemy_resolve_spec_witness :
  enemy_resolve {| w0 with enemies := [e_on; e_far] |} e_on =
    Ok (if collide e_on (player w0) then
          {| w0 with player := set_health (get_health (player w0) - 50) (player w0);
                     enemies := [] ++ [e_far] |}
        else if HEIGHT + 155 <? ch_y e_on + img_height (char_img e_on) then
          {| w0 with resurrections := resurrections w0 - 1; enemies := [] ++ [e_far] |}
        else {| w0 with enemies := [e_on; e_far] |}).
Proof. apply (enemy_resolve_spec {| w0 with enemies := [e_on; e_far] |} e_on [] e_on [e_far]); [reflexivity|reflexivity|decide_concrete]. Defined.

Lemma frame_last_life_witness :
  main_frame no_input w_dying =
    Ok {| w_dying with resurrections := 0;
                       player := set_health (max_health (player w_dying)) (player w_dying);
                       lost := true; lost_count := 1 |}.
Proof. apply frame_last_life; simpl; lia. Defined.
(** Left, right, up and down held together at the start position. *)
Lemma handle_keys_roundtrip_witness :
  handle_keys {| events := []; key_a := true; key_d := true; key_w := true; key_s := true;
                 key_space := false |} w0 = w0.
Proof.
  apply handle_keys_roundtrip; try reflexivity.
  - unfold in_bounds, img_width, img_height, WIDTH, HEIGHT. simpl. lia.
  - simpl. unfold player_vel. lia.
  - intros _. simpl. unfold player_vel. lia.
Defined.
End Witnesses.

End Game.
