(* ===== verification/GameSafety.v ===== *)
(** * GameSafety: invariants, safety and liveness of the [main] loop

    [reachable] is the set of session states the loop of [main] can be
    in at the top of [while run:], by rule induction from [init_world]
    through [main_frame].  [world_ok] is the invariant:

    - [ids_ok]: the identities of the enemies, of the player's shots and
      of each enemy's shots are distinct and below [next_oid]; every
      cooldown counter is within [[0, COOLDOWN]];
    - [wave_length = 5 + 3 * level];
    - [lost] implies no resurrection is left, and [lost_count] is 0
      until [lost] and at most [3 * fps] while [run] holds.

    Each block of the frame keeps [ids_ok]; the enemy loop keeps it
    together with the position of the current enemy in [enemies]
    ([enemy_step_ok]).  The theorems: every frame from a reachable state
    either succeeds in a state that satisfies the invariant or raises
    [SystemExit] because the player quit ([frame_ok], [frame_safe]: no
    [ValueError], no [KeyError]); the loop over the copy [enemies[:]]
    visits every enemy of the copy exactly once, one random draw each
    ([enemies_step_each_once]); once no resurrection is left the loop
    ends within [3 * fps + 1] frames ([game_over_terminates]). *)

From stdpp Require Import gmap strings.
From S2P Require Import Prelude PyLoop Collision Shot Character Player Enemy Game.
Local Open Scope Z_scope.

Module GameSafety.
Import Game.

Section Invariant.
Context {AS : Assets}.

(** What an enemy must satisfy, given the identity counter. *)
Definition enemy_ok (n : nat) (e : Enemy) : Prop :=
  fresh_ids n (ids (shots e)) /\ Character.counter_ok e.

Definition ids_ok (w : World) : Prop :=
  fresh_ids (next_oid w) (ids (enemies w)) /\
  fresh_ids (next_oid w) (ids (shots (p_ch (player w)))) /\
  Forall (enemy_ok (next_oid w)) (enemies w) /\
  Character.counter_ok (p_ch (player w)).

Definition world_ok (w : World) : Prop :=
  ids_ok w /\
  wave_length w = 5 + 3 * level w /\
  (lost w = true -> resurrections w <= 0) /\
  (lost w = false -> lost_count w = 0) /\
  (run w = true -> 0 <= lost_count w <= fps * 3).

Inductive reachable : World -> Prop :=
| reach_init rs : reachable (init_world rs)
| reach_frame w inp w' :
    reachable w -> run w = true -> main_frame inp w = Ok w' -> reachable w'.

(** The steps after the [lost] gate leave the session counters alone,
    never add resurrections, and never reuse an identity. *)
Definition stable (w w' : World) : Prop :=
  run w' = run w /\ level w' = level w /\ wave_length w' = wave_length w /\
  lost w' = lost w /\ lost_count w' = lost_count w /\
  resurrections w' <= resurrections w /\ (next_oid w <= next_oid w')%nat.

(** The state of [for enemy in enemies[:]] before the enemies [rest]
    of the copy: the invariant holds, and the enemies of the copy not
    visited yet are the tail of [enemies], untouched. *)
Definition loop_ok (w : World) (rest : list Enemy) : Prop :=
  ids_ok w /\ exists pre, enemies w = pre ++ rest.

#[local] Instance stable_preorder : PreOrder stable.
Proof.
  split.
  - intros w. repeat split; lia.
  - intros w1 w2 w3 (?&?&?&?&?&?&?) (?&?&?&?&?&?&?). repeat split; congruence || lia.
Qed.

Lemma enemy_ok_mono n m e : (n <= m)%nat -> enemy_ok n e -> enemy_ok m e.
Proof. intros Hnm [Hf Hc]. split; [eapply fresh_ids_mono|]; eauto. Qed.

Lemma Forall_enemy_ok_mono n m l :
  (n <= m)%nat -> Forall (enemy_ok n) l -> Forall (enemy_ok m) l.
Proof. intros Hnm Hl. eapply Forall_impl; [exact Hl|]. intros e. by apply enemy_ok_mono. Qed.

Lemma ids_ok_init rs : ids_ok (init_world rs).
Proof.
  repeat split; simpl; try constructor; unfold Character.COOLDOWN; lia.
Qed.

Lemma ids_ok_respawn w : ids_ok w -> ids_ok (respawn w).
Proof. unfold respawn. by case_match. Qed.

Lemma ids_ok_check_lost w : ids_ok w -> ids_ok (check_lost w).
Proof. unfold check_lost. by case_match. Qed.

Lemma spawn_wave_ok w : ids_ok w -> exists w', spawn_wave w = Ok w' /\ ids_ok w' /\
  level w' = level w + (if enemies w is [] then 1 else 0) /\
  wave_length w' = wave_length w + (if enemies w is [] then 3 else 0) /\
  run w' = run w /\ lost w' = lost w /\ lost_count w' = lost_count w /\
  resurrections w' = resurrections w /\ player w' = player w /\ (next_oid w <= next_oid w')%nat.
Proof.
  intros Hw. pose proof Hw as (He & Hp & Hf & Hc). destruct (enemies w) as [|e es] eqn:E.
  - destruct (spawn_wave_eq w E) as (new & rs & -> & Hlen & Hids & Hok).
    eexists. split; [done|]. simpl. split; [|repeat split; lia].
    split; [|split; [|split]]; simpl.
    + rewrite Hids. rewrite <- (app_nil_l (seq _ _)). apply fresh_ids_app_seq, fresh_ids_nil.
    + eapply fresh_ids_mono; [|exact Hp]. lia.
    + eapply Forall_impl; [exact Hok|]. intros e (_&_&_&Hs&Hcc&_). split.
      * rewrite Hs. apply fresh_ids_nil.
      * unfold Character.counter_ok, Character.COOLDOWN. lia.
    + apply Hc.
  - unfold spawn_wave. rewrite E. eexists. split; [done|].
    split; [exact Hw | repeat split; simpl; lia].
Qed.

Lemma set_pos_shots x y p : p_ch (set_pos x y p) = {| (p_ch p) with ch_x := x; ch_y := y |}.
Proof. reflexivity. Qed.

Lemma handle_keys_ok inp w : ids_ok w ->
  ids_ok (handle_keys inp w) /\ stable w (handle_keys inp w) /\
  enemies (handle_keys inp w) = enemies w.
Proof.
  intros (He & Hp & Hf & Hc). unfold handle_keys.
  set (p := set_pos _ _ _).
  destruct (key_space inp); simpl.
  - split; [|split; [repeat split; simpl; lia | done]].
    split; [|split; [|split]]; simpl.
    + eapply fresh_ids_mono; [|exact He]. lia.
    + apply Character.shoot_fresh. subst p. exact Hp.
    + eapply Forall_enemy_ok_mono; [|exact Hf]. lia.
    + apply (Character.counter_ok_steps (next_oid w) (p_ch p)). subst p. exact Hc.
  - split; [|split; [repeat split; simpl; lia | done]].
    split; [|split; [|split]]; simpl; subst p; first [done | exact Hp | exact Hc].
Qed.

(** ** The enemy loop *)

Lemma fresh_ids_replace n m (pre suf : list Enemy) x y :
  (n <= m)%nat -> py_id x = py_id y ->
  fresh_ids n (ids (pre ++ y :: suf)) -> fresh_ids m (ids (pre ++ x :: suf)).
Proof.
  intros Hnm Hxy Hf. eapply fresh_ids_mono; [exact Hnm|].
  by rewrite !ids_app, !ids_cons, Hxy; rewrite !ids_app, !ids_cons in Hf.
Qed.

Lemma fresh_ids_remove n (pre suf : list Enemy) y :
  fresh_ids n (ids (pre ++ y :: suf)) -> fresh_ids n (ids (pre ++ suf)).
Proof.
  apply fresh_ids_sublist. rewrite !ids_app, ids_cons.
  apply sublist_app; [done|]. by apply sublist_cons.
Qed.

Lemma Forall_enemy_ok_replace n m (pre suf : list Enemy) x y :
  (n <= m)%nat -> enemy_ok m x ->
  Forall (enemy_ok n) (pre ++ y :: suf) -> Forall (enemy_ok m) (pre ++ x :: suf).
Proof.
  intros Hnm Hx (Hpre & Hsuf)%Forall_app. apply Forall_cons in Hsuf as [_ Hsuf].
  apply Forall_app. split; [|constructor; [done|]]; by eapply Forall_enemy_ok_mono.
Qed.

Lemma Forall_enemy_ok_remove n (pre suf : list Enemy) y :
  Forall (enemy_ok n) (pre ++ y :: suf) -> Forall (enemy_ok n) (pre ++ suf).
Proof.
  intros (Hpre & Hsuf)%Forall_app. apply Forall_cons in Hsuf as [_ Hsuf].
  by apply Forall_app.
Qed.

(** The player after [move_shot] of an enemy: only its health differs. *)
Lemma player_health_changed (p p' : Player) :
  Character.health_changed p p' ->
  shots (p_ch p') = shots (p_ch p) /\ cool_down_counter (p_ch p') = cool_down_counter (p_ch p).
Proof. by intros [->|[h ->]]. Qed.

(** Lines 238-242 keep the invariant and the place of the enemy. *)
Lemma enemy_advance_ok w e pre suf :
  ids_ok w -> enemy_ok (next_oid w) e -> enemies w = pre ++ e :: suf ->
  exists e' w', enemy_advance w e = Ok (e', w') /\ py_id e' = py_id e /\
    enemies w' = pre ++ e' :: suf /\ ids_ok w' /\ stable w w'.
Proof.
  intros (He & Hp & Hf & Hc) [Hes Hec] Hen.
  rewrite Hen in He, Hf. pose proof (proj1 He) as Hnd.
  destruct (NoDup_ids_split _ _ _ Hnd) as (Hpre & Hsuf & _).
  unfold enemy_advance. rewrite Hen.
  set (e1 := Enemy.move enemy_vel e).
  rewrite (py_update_app e1 e) by done. simpl.
  destruct (Character.move_shot_returns shot_vel (player w) e1) as (e2 & p2 & Hm); [apply Hes|].
  destruct (Character.move_shot_frame shot_vel (player w) e1 e2 p2 (proj1 Hes) Hm)
    as (He2 & Hsub & Hhc).
  rewrite Hm. simpl.
  assert (Hid2 : py_id e2 = py_id e)
    by (rewrite He2; simpl; rewrite Character.cooldown_oid; reflexivity).
  rewrite (py_update_app e2 e1) by (try rewrite Hid2; done).
  assert (Hok2 : enemy_ok (next_oid w) e2).
  { split; [by eapply fresh_ids_sublist|].
    rewrite He2. unfold Character.counter_ok. simpl.
    apply (Character.counter_ok_steps 0 e1). exact Hec. }
  destruct (player_health_changed _ _ Hhc) as [Hps Hpc].
  destruct (randrange 0 (4 * fps) (rng w)) as [r rs]. simpl.
  destruct (Z.eqb_spec r 1).
  - set (e3 := Character.shoot (next_oid w) e2).
    assert (Hid3 : py_id e3 = py_id e) by (rewrite <- Hid2; apply Character.shoot_oid).
    rewrite (py_update_app e3 e2) by (try rewrite Hid3; try rewrite Hid2; done).
    do 2 eexists. split; [reflexivity|]. simpl. split; [done|]. split; [done|].
    split; [|repeat split; simpl; lia].
    split; [|split; [|split]]; simpl.
    + apply (fresh_ids_replace (next_oid w) (S (next_oid w)) pre suf e3 e); [lia|done|done].
    + rewrite Hps. eapply fresh_ids_mono; [|exact Hp]. lia.
    + apply (Forall_enemy_ok_replace (next_oid w) _ _ _ _ e); [lia| |exact Hf].
      split; [by apply Character.shoot_fresh, Hok2|].
      apply (Character.counter_ok_steps (next_oid w) e2), Hok2.
    + unfold Character.counter_ok. rewrite Hpc. apply Hc.
  - do 2 eexists. split; [reflexivity|]. simpl. split; [done|]. split; [done|].
    split; [|repeat split; simpl; lia].
    split; [|split; [|split]]; simpl.
    + apply (fresh_ids_replace (next_oid w) (next_oid w) pre suf e2 e); [lia|done|done].
    + by rewrite Hps.
    + by apply (Forall_enemy_ok_replace (next_oid w) _ _ _ _ e).
    + unfold Character.counter_ok. rewrite Hpc. apply Hc.
Qed.

(** Lines 244-250 keep the invariant; the enemy is removed or kept in
    place. *)
Lemma enemy_resolve_ok w e pre suf :
  ids_ok w -> enemies w = pre ++ e :: suf ->
  exists w', enemy_resolve w e = Ok w' /\ ids_ok w' /\ stable w w' /\
    (enemies w' = pre ++ suf \/ enemies w' = pre ++ e :: suf).
Proof.
  intros Hw Hen. pose proof Hw as (He & Hp & Hf & Hc). rewrite Hen in He, Hf.
  destruct (NoDup_ids_split _ _ _ (proj1 He)) as (Hpre & _ & _).
  unfold enemy_resolve. rewrite Hen, (py_remove_app e e) by done. simpl.
  assert (Hok' : forall w', enemies w' = pre ++ suf -> next_oid w' = next_oid w ->
            shots (p_ch (player w')) = shots (p_ch (player w)) ->
            cool_down_counter (p_ch (player w')) = cool_down_counter (p_ch (player w)) ->
            ids_ok w').
  { intros w' Hen' Hn Hs Hcc. unfold ids_ok. rewrite Hen', Hn. split; [|split; [|split]].
    - by eapply fresh_ids_remove.
    - by rewrite Hs.
    - by eapply Forall_enemy_ok_remove.
    - unfold Character.counter_ok. rewrite Hcc. apply Hc. }
  case_match; [|case_match].
  - eexists. split; [done|]. split; [by apply Hok'|].
    split; [repeat split; simpl; lia|]. by left.
  - eexists. split; [done|]. split; [by apply Hok'|].
    split; [repeat split; simpl; lia|]. by left.
  - eexists. split; [done|]. split; [done|]. split; [reflexivity|]. by right.
Qed.

Lemma enemy_step_ok w e rest :
  loop_ok w (e :: rest) ->
  exists w', enemy_step w e = Ok w' /\ loop_ok w' rest /\ stable w w'.
Proof.
  intros (Hw & pre & Hen). pose proof Hw as (_ & _ & Hf & _).
  rewrite Hen in Hf. apply Forall_app in Hf as [_ Hf]. apply Forall_cons in Hf as [He _].
  destruct (enemy_advance_ok w e pre rest Hw He Hen) as (e' & w1 & Ha & _ & Hen1 & Hw1 & Hs1).
  destruct (enemy_resolve_ok w1 e' pre rest Hw1 Hen1) as (w2 & Hr & Hw2 & Hs2 & [Hen2|Hen2]);
    unfold enemy_step; rewrite Ha; simpl; rewrite Hr;
    (eexists; split; [done|]; split; [split; [done|]|by etrans]).
  - by exists pre.
  - exists (pre ++ [e']). by rewrite <- app_assoc.
Qed.

Lemma enemies_loop_ok rest w :
  loop_ok w rest -> exists w', res_fold enemy_step rest w = Ok w' /\ ids_ok w' /\ stable w w'.
Proof.
  revert w. induction rest as [|e rest IH]; intros w Hl; simpl.
  - eexists. split; [done|]. split; [apply Hl|reflexivity].
  - destruct (enemy_step_ok w e rest Hl) as (w1 & -> & Hl1 & Hs1). simpl.
    destruct (IH w1 Hl1) as (w2 & -> & Hw2 & Hs2). eexists. split; [done|].
    split; [done|by etrans].
Qed.

(** Lines 237-250 keep the invariant and never raise. *)
Lemma enemies_step_ok w :
  ids_ok w -> exists w', enemies_step w = Ok w' /\ ids_ok w' /\ stable w w'.
Proof. intros Hw. apply enemies_loop_ok. split; [done|]. by exists []. Qed.

(** One draw of [random.randrange] consumes one value of the oracle. *)
Lemma randrange_tail a b rs : snd (randrange a b rs) = tail rs.
Proof. by destruct rs. Qed.

Lemma enemy_step_rng w e w' : enemy_step w e = Ok w' -> rng w' = tail (rng w).
Proof.
  unfold enemy_step, enemy_advance. cbn [enemies rng player].
  destruct (Character.move_shot _ _ _) as [[e1 p]|?]; simpl; [|discriminate].
  pose proof (randrange_tail 0 (4 * fps) (rng w)) as Ht.
  destruct (randrange _ _ _) as [r rs]. simpl in Ht. subst rs.
  unfold enemy_resolve.
  destruct (r =? 1); simpl; repeat case_match; simpl;
    try destruct (py_remove _ _); simpl; intros Hr; inversion Hr; reflexivity.
Qed.

(** A fold whose every step consumes one draw consumes one per element. *)
Lemma res_fold_rng (f : World -> Enemy -> res World) (l : list Enemy) w w' :
  (forall w1 e w2, f w1 e = Ok w2 -> rng w2 = tail (rng w1)) ->
  res_fold f l w = Ok w' -> rng w' = drop (length l) (rng w).
Proof.
  intros Hf. revert w. induction l as [|e l IH]; intros w; simpl; [intros H; injection H as ->; reflexivity|].
  destruct (f w e) as [w1|?] eqn:He; simpl; [|discriminate].
  intros Hl. rewrite (IH w1 Hl), (Hf _ _ _ He). destruct (rng w); simpl; [by rewrite drop_nil|done].
Qed.

(** Line 252 keeps the invariant and never raises. *)
Lemma player_step_ok w :
  ids_ok w ->
  exists p es, Player.move_shot (- shot_vel * 2) (enemies w) (player w) = Ok (p, es) /\
    ids_ok {| w with player := p; enemies := es |}.
Proof.
  intros (He & Hp & Hf & Hc).
  destruct (Player.kills_returns (- shot_vel * 2) (enemies w) (player w)) as (p & es & Hm);
    [apply Hp | apply He|].
  destruct (Player.move_shot_kills_frame _ _ _ _ _ (proj1 Hp) (proj1 He) Hm) as (Hpe & Hsub & Hes).
  exists p, es. split; [exact Hm|]. split; [|split; [|split]]; simpl.
  - eapply fresh_ids_sublist; [|exact He]. change (py_id <$> es `sublist_of` py_id <$> enemies w).
    by apply fmap_sublist.
  - by eapply fresh_ids_sublist.
  - by eapply Forall_of_sublist.
  - rewrite Hpe. exact (proj1 (Character.counter_ok_steps 0 _ Hc)).
Qed.

(** ** Frames *)

Ltac unfold_gate := unfold check_lost, respawn; case_bool_Z; simpl in *.

Lemma play_frame_ok inp w :
  ids_ok w ->
  (exists w', play_frame inp w = Ok w' /\ ids_ok w' /\
     run w' = run w /\ lost w' = lost w /\ lost_count w' = lost_count w /\
     resurrections w' <= resurrections w /\
     (wave_length w = 5 + 3 * level w -> wave_length w' = 5 + 3 * level w')) \/
  (play_frame inp w = Err SystemExit /\ existsb is_quit (events inp) = true).
Proof.
  intros Hw. unfold play_frame.
  destruct (spawn_wave_ok w Hw) as (w1 & -> & Hw1 & Hl1 & Hwl1 & Hr1 & Hlo1 & Hlc1 & Hres1 & _ & _).
  simpl. destruct (existsb is_quit (events inp)) eqn:Hq; [by right|left].
  destruct (handle_keys_ok inp w1 Hw1) as (Hw2 & Hs2 & _).
  destruct (enemies_step_ok _ Hw2) as (w3 & -> & Hw3 & Hs3). simpl.
  destruct (player_step_ok w3 Hw3) as (p & es & -> & Hw4). simpl.
  eexists. split; [done|]. split; [done|].
  destruct Hs2 as (?&?&?&?&?&?&?), Hs3 as (?&?&?&?&?&?&?). simpl.
  repeat split; try congruence; try lia.
  intros Hwl. destruct (enemies w); lia.
Qed.

Lemma frame_preserves_ok inp w :
  world_ok w -> run w = true ->
  (exists w', main_frame inp w = Ok w' /\ world_ok w') \/
  (main_frame inp w = Err SystemExit /\ existsb is_quit (events inp) = true).
Proof.
  intros (Hw & Hwl & Hlost & Hlc0 & Hlc) Hrun. specialize (Hlc Hrun).
  unfold main_frame.
  set (w1 := check_lost (respawn w)).
  assert (Hw1 : ids_ok w1) by by apply ids_ok_check_lost, ids_ok_respawn.
  assert (Hr1 : resurrections w1 <= resurrections w) by (subst w1; unfold_gate; lia).
  assert (H1 : level w1 = level w /\ wave_length w1 = wave_length w /\ run w1 = run w)
    by (subst w1; unfold_gate; auto).
  assert (Hl1 : lost w1 = true -> resurrections w1 <= 0)
    by (subst w1; unfold_gate; intros Hl; try specialize (Hlost Hl); lia).
  assert (Hc1 : (lost w1 = false -> lost_count w1 = 0) /\ 0 <= lost_count w1 <= lost_count w + 1)
    by (subst w1; unfold_gate; split; intros; auto; try discriminate; lia).
  destruct H1 as (Hlv & Hwv & Hrn), Hc1 as (Hc1 & Hc1').
  destruct (lost w1 && negb (fps * 3 <? lost_count w1)) eqn:Hg.
  { left. eexists. split; [done|].
    split; [done|]. split; [lia|]. split; [done|]. split; [done|]. intros _.
    apply andb_prop in Hg as [_ Hg]. apply negb_true_iff, Z.ltb_ge in Hg. lia. }
  assert (Hw1' : ids_ok (if lost w1 then {| w1 with run := false |} else w1))
    by (destruct (lost w1); exact Hw1).
  destruct (play_frame_ok inp _ Hw1')
    as [(w' & -> & Hw' & Hrn' & Hlo' & Hlc' & Hres' & Hwl')|Hq]; [left|by right].
  eexists. split; [done|]. split; [done|]. split; [apply Hwl'; destruct (lost w1); simpl; lia|].
  destruct (lost w1) eqn:Hlw1; simpl in *.
  - split; [intros; lia|]. split; intros; congruence.
  - split; [intros; congruence|]. split; [intros; rewrite Hlc'; auto|].
    intros _. rewrite Hlc', Hc1; [lia|done].
Qed.

(** C3: Every frame from a state satisfying the invariant either ends
    in a state that satisfies it, or raises [SystemExit] because a
    [QUIT] event was pending: [main_frame] never raises [ValueError]
    (every [list.remove] finds its object) nor [KeyError] (every
    enemy kind drawn is in [ENEMY_MAP]), and keeps the wave and
    game-over bookkeeping consistent. *)
Theorem frame_ok inp w :
  world_ok w -> run w = true ->
  (exists w', main_frame inp w = Ok w' /\ world_ok w') \/
  (main_frame inp w = Err SystemExit /\ existsb is_quit (events inp) = true).
Proof. apply frame_preserves_ok. Qed.

Lemma world_ok_init rs : world_ok (init_world rs).
Proof.
  split; [apply ids_ok_init|]. simpl. unfold fps.
  repeat split; intros; try discriminate; lia.
Qed.

Lemma reachable_ok w : reachable w -> world_ok w.
Proof.
  induction 1 as [rs|w inp w' Hr IH Hrun Hf]; [apply world_ok_init|].
  destruct (frame_preserves_ok inp w IH Hrun) as [(w'' & Hf' & Hok)|[Hf' _]];
    rewrite Hf in Hf'; [by injection Hf' as ->|discriminate].
Qed.

(** C2: The invariant [world_ok] holds in every state the loop of
    [main] reaches: distinct fresh identities, cooldown counters in
    range, [wave_length = 5 + 3 * level], [lost] only without
    resurrections, [lost_count] within [[0, fps * 3]] while running. *)
Theorem reachable_world_ok w : reachable w -> world_ok w.
Proof. apply reachable_ok. Qed.

(** C1: Crash freedom: a frame of the game loop from any reachable
    state raises no exception except the [SystemExit] of [quit()] when
    a [QUIT] event is pending. *)
Theorem frame_safe w inp e :
  reachable w -> run w = true -> main_frame inp w = Err e ->
  e = SystemExit /\ existsb is_quit (events inp) = true.
Proof.
  intros Hr Hrun Hf.
  destruct (frame_preserves_ok inp w (reachable_ok w Hr) Hrun) as [(w' & Hf' & _)|[Hf' Hq]];
    rewrite Hf in Hf'; [discriminate|]. by injection Hf' as ->.
Qed.

(** C20: The loop [for enemy in enemies[:]] (lines 237-250) runs over a
    copy, so it visits every enemy that was in [enemies] when it
    started exactly once, also when enemies are removed during the
    loop: from a state with the identity invariant it never raises, and
    it draws exactly one number per enemy of the copy (line 241), the
    generator being left with [length enemies] draws consumed. *)
Theorem enemies_step_each_once w :
  ids_ok w ->
  exists w', enemies_step w = Ok w' /\ rng w' = drop (length (enemies w)) (rng w).
Proof.
  intros Hw. destruct (enemies_step_ok w Hw) as (w' & Hs & _).
  exists w'. split; [done|]. exact (res_fold_rng _ _ _ _ enemy_step_rng Hs).
Qed.

(** ** Game over *)

Lemma main_loop_stopped inputs w : run w = false -> main_loop inputs w = Ok w.
Proof. intros Hrun. destruct inputs; simpl; [done|]. by rewrite Hrun. Qed.

Lemma gate_no_life w :
  resurrections w <= 0 ->
  check_lost (respawn w) = {| (respawn w) with lost := true; lost_count := lost_count w + 1 |}.
Proof.
  intros Hres. unfold check_lost at 1.
  assert (Hr : resurrections (respawn w) <= 0 /\ lost_count (respawn w) = lost_count w)
    by (unfold respawn; case_bool_Z; simpl; split; lia).
  destruct Hr as [Hr Hc]. destruct (Z.leb_spec (resurrections (respawn w)) 0); [|lia].
  by rewrite Hc.
Qed.

Lemma game_over_loop inputs w :
  world_ok w -> run w = true -> resurrections w <= 0 ->
  (Z.to_nat (fps * 3 + 1 - lost_count w) <= length inputs)%nat ->
  Forall (fun inp => existsb is_quit (events inp) = false) inputs ->
  exists w', main_loop inputs w = Ok w' /\ run w' = false.
Proof.
  revert w. induction inputs as [|inp rest IH]; intros w Hw Hrun Hres Hlen Hq.
  { destruct Hw as (_ & _ & _ & _ & Hlc). specialize (Hlc Hrun). simpl in Hlen.
    unfold fps in *. lia. }
  apply Forall_cons in Hq as [Hq Hqs]. simpl. rewrite Hrun.
  destruct (frame_preserves_ok inp w Hw Hrun) as [(w1 & Hf & Hw1)|[_ Hq']]; [|congruence].
  rewrite Hf. simpl. unfold main_frame in Hf. rewrite gate_no_life in Hf by done. simpl in Hf.
  destruct (Z.ltb_spec (fps * 3) (lost_count w + 1)); simpl in Hf.
  - assert (Hw0 : ids_ok {| (respawn w) with lost := true; lost_count := lost_count w + 1;
                                             run := false |})
      by exact (ids_ok_respawn w (proj1 Hw)).
    destruct (play_frame_ok inp _ Hw0) as [(w2 & Hp & _ & Hrun2 & _)|[_ Hq']]; [|congruence].
    rewrite Hf in Hp. injection Hp as <-.
    exists w1. split; [by apply main_loop_stopped|done].
  - injection Hf as <-. apply IH; simpl; try done.
    + unfold respawn. by case_match.
    + unfold respawn. case_bool_Z; simpl; lia.
    + simpl in Hlen. lia.
Qed.

(** C14: Game over terminates: from a reachable state with no
    resurrection left, the loop of [main] stops ([run] becomes false)
    within [fps * 3 + 1 = 181] frames, whatever keys are pressed, as
    long as the player does not quit. *)
Theorem game_over_terminates inputs w :
  reachable w -> run w = true -> resurrections w <= 0 ->
  (181 <= length inputs)%nat ->
  Forall (fun inp => existsb is_quit (events inp) = false) inputs ->
  exists w', main_loop inputs w = Ok w' /\ run w' = false.
Proof.
  intros Hr Hrun Hres Hlen Hq. pose proof (reachable_ok w Hr) as Hw.
  apply game_over_loop; try done.
  destruct Hw as (_ & _ & _ & _ & Hlc). specialize (Hlc Hrun). unfold fps in *. lia.
Qed.

(** Every state [main_loop] ends in is reachable. *)
Lemma main_loop_reachable inputs w w' :
  reachable w -> main_loop inputs w = Ok w' -> reachable w'.
Proof.
  revert w. induction inputs as [|inp rest IH]; intros w Hr Hl; simpl in Hl.
  { by injection Hl as <-. }
  destruct (run w) eqn:Hrun; [|by injection Hl as <-].
  destruct (main_frame inp w) as [w1|e] eqn:Hf; simpl in Hl; [|done].
  apply (IH w1); [|done]. by apply (reach_frame w inp).
Qed.
End Invariant.

(** ** Concrete runs *)

Section Witnesses.
#[local] Existing Instance demo_assets.

(** The state of a session whose random draws are all 0, after [n]
    frames without input: enemies spawn at [x = 50], never fire, and
    all escape at the bottom. *)
Local Abbreviation run_idle n :=
  (match main_loop (repeat no_input n) (init_world []) with Ok w => w | Err _ => init_world [] end).

Lemma run_idle_reachable n : reachable (run_idle n).
Proof.
  destruct (main_loop (repeat no_input n) (init_world [])) as [w|e] eqn:E;
    [apply (main_loop_reachable _ _ _ (reach_init []) E) | apply reach_init].
Qed.

(** After 400 idle frames the first wave of 8 enemies is on the field. *)
Lemma enemies_step_each_once_witness :
  exists w', enemies_step (run_idle 400) = Ok w' /\
    rng w' = drop (length (enemies (run_idle 400))) (rng (run_idle 400)).
Proof. apply enemies_step_each_once, reachable_ok, run_idle_reachable. Defined.

Lemma frame_ok_witness :
  (exists w', main_frame no_input (init_world []) = Ok w' /\ world_ok w') \/
  (main_frame no_input (init_world []) = Err SystemExit /\ existsb is_quit (events no_input) = true).
Proof. apply frame_ok; [apply world_ok_init | reflexivity]. Defined.

Lemma reachable_world_ok_witness : world_ok (run_idle 600).
Proof. apply reachable_world_ok, run_idle_reachable. Defined.

(** Quitting in the first frame is the one exception a frame raises. *)
Lemma frame_safe_witness :
  SystemExit = SystemExit /\
  existsb is_quit (events {| events := [QUIT]; key_a := false; key_d := false; key_w := false;
                             key_s := false; key_space := true |}) = true.
Proof.
  apply (frame_safe (init_world []) _ SystemExit (reach_init [])); [reflexivity|].
  vm_compute. reflexivity.
Defined.

(** After 2506 idle frames both waves have escaped and no resurrection
    is left; 181 further frames end the session. *)
Lemma game_over_terminates_witness :
  exists w', main_loop (repeat no_input 181) (run_idle 2506) = Ok w' /\ run w' = false.
Proof.
  apply game_over_terminates.
  - apply run_idle_reachable.
  - vm_compute. reflexivity.
  - vm_compute. discriminate.
  - rewrite repeat_length. lia.
  - apply Forall_forall. intros i Hi%list_elem_of_In%repeat_spec. by subst i.
Defined.
End Witnesses.

End GameSafety.
