(* ===== verification/Typing.v ===== *)
(** * Typing: the images and health of the objects of a session

    Python does not check that an object's images fit its kind; the
    program keeps them consistent by construction.  [world_typed] states
    it for a session state of [main] (src/main.py, lines 150-252):

    - the player has the images [JESUS] / [JESUS_SHOT] of
      [Player.__init__] (lines 96-97), [max_health = 100] (line 99,
      [Player(370, 570)] at line 159), and [health <= max_health];
    - every enemy has the pair of images that [ENEMY_MAP] (lines
      129-133) binds to one of the three kinds;
    - every shot of a character carries that character's shot image
      ([Character.shoot], line 82).

    Each block of a frame keeps [world_typed] (given the identity
    invariant [ids_ok] of GameSafety.v, which the loops need), so every
    reachable state is typed ([reachable_typed]).  As a consequence the
    green bar of the health bar is never wider than the red one
    ([reachable_bar_width_le], drawn in Rendering.v); it can still be
    negative (Scenarios.v). *)

From Stdlib Require Import QArith.
From stdpp Require Import gmap strings.
From S2P Require Import Prelude PyLoop Collision Shot Character Player Enemy Game GameSafety.
Local Open Scope Z_scope.

Module Typing.
Import Game GameSafety.

Definition shots_typed (si : Img) (l : list Shot) : Prop :=
  Forall (fun s => Shot.shot_img s = si) l.

Definition enemy_typed (e : Enemy) : Prop :=
  (exists k, k ∈ Enemy.kinds /\ Enemy.ENEMY_MAP !! k = Some (char_img e, shot_img e)) /\
  shots_typed (shot_img e) (shots e).

Definition player_typed (p : Player) : Prop :=
  char_img (p_ch p) = JESUS /\ shot_img (p_ch p) = JESUS_SHOT /\
  shots_typed JESUS_SHOT (shots (p_ch p)) /\ max_health p = 100 /\ health (p_ch p) <= 100.

Definition world_typed (w : World) : Prop :=
  player_typed (player w) /\ Forall enemy_typed (enemies w).

(** ** Characters *)

Lemma move_typed vel s si : Shot.shot_img s = si -> Shot.shot_img (Shot.move vel s) = si.
Proof. done. Qed.

Lemma shoot_typed oid c :
  shots_typed (shot_img c) (shots c) ->
  shots_typed (shot_img c) (shots (Character.shoot oid c)) /\
  char_img (Character.shoot oid c) = char_img c /\ shot_img (Character.shoot oid c) = shot_img c /\
  health (Character.shoot oid c) = health c.
Proof.
  intros Hs. unfold Character.shoot. case_match; simpl; [|done].
  split; [|done]. apply Forall_app. split; [done|]. by constructor.
Qed.

Lemma cooldown_fields c :
  char_img (Character.cooldown c) = char_img c /\ shot_img (Character.cooldown c) = shot_img c /\
  health (Character.cooldown c) = health c.
Proof. unfold Character.cooldown. by repeat case_match. Qed.

Section MoveShot.
Context {AS : Assets}.

(** [Character.move_shot] keeps the images and the typing of the shots,
    and never raises the target's health. *)
Lemma char_move_shot_typed {T} `{Target T} vel (obj : T) c c' obj' :
  NoDup (ids (shots c)) -> Character.move_shot vel obj c = Ok (c', obj') ->
  shots_typed (shot_img c) (shots c) ->
  shots_typed (shot_img c) (shots c') /\ char_img c' = char_img c /\ shot_img c' = shot_img c /\
  get_health obj' <= get_health obj.
Proof.
  intros Hnd Hm Hs.
  destruct (Character.move_shot_cost _ _ _ _ _ Hnd Hm) as (k & Hk & _).
  rewrite (Character.move_shot_loop_ref _ _ _ Hnd) in Hm.
  destruct (visit_ref _ _ _) as [[l' o']|e] eqn:Hr; simpl in Hm; [|done].
  injection Hm as <- <-. simpl. destruct (cooldown_fields c) as (-> & -> & _).
  split; [|split_and!; [done|done|lia]].
  eapply (visit_ref_Forall _ _ (shots c) obj); [|exact Hs|exact Hr].
  intros x b x' d b' Hx. unfold Character.move_shot_visit.
  repeat case_match; intros [= <- _ _]; by apply move_typed.
Qed.

(** [Player.move_shot] keeps the player typed and removes enemies. *)
Lemma player_move_shot_typed {E} `{Sprite E} `{PyObj E} vel (objs : list E) p p' objs' :
  NoDup (ids (shots (p_ch p))) -> NoDup (ids objs) ->
  Player.move_shot vel objs p = Ok (p', objs') ->
  player_typed p -> player_typed p' /\ objs' `sublist_of` objs.
Proof.
  intros Hs Ho Hm Hp.
  destruct (Player.move_shot_kills_frame _ _ _ _ _ Hs Ho Hm) as (_ & _ & Hsub).
  split; [|done].
  rewrite (Player.kills_loop_ref _ _ _ Hs Ho) in Hm.
  destruct (visit_ref _ _ _) as [[l' o']|e] eqn:Hr; simpl in Hm; [|done].
  injection Hm as <- _. destruct Hp as (Hc & Hsi & Hst & Hmax & Hh).
  destruct (cooldown_fields (p_ch p)) as (Hc' & Hsi' & Hh').
  simpl. rewrite Hc', Hsi', Hh'. split_and!; try done.
  eapply (visit_ref_Forall _ _ (shots (p_ch p)) objs); [|exact Hst|exact Hr].
  intros x b x' d b' Hx. unfold Player.move_shot_visit.
  repeat case_match; intros [= <- _ _]; by apply move_typed.
Qed.
End MoveShot.

(** ** The blocks of a frame *)

Section Frame.
Context {AS : Assets}.

Lemma respawn_typed w : world_typed w -> world_typed (respawn w).
Proof.
  intros [Hp He]. unfold respawn. case_match; [|by split].
  split; [|done]. destruct Hp as (? & ? & ? & Hm & ?). split_and!; simpl; try done. lia.
Qed.

Lemma check_lost_typed w : world_typed w -> world_typed (check_lost w).
Proof. unfold check_lost. by case_match. Qed.

Lemma spawn_wave_typed w w' : world_typed w -> spawn_wave w = Ok w' -> world_typed w'.
Proof.
  intros Hw Hs. destruct (enemies w) as [|e es] eqn:E.
  - destruct (spawn_wave_eq w E) as (new & rs & Heq & _ & _ & Hok).
    rewrite Hs in Heq. injection Heq as ->. split; [apply Hw|]. simpl.
    eapply Forall_impl; [exact Hok|]. intros e' (_ & _ & _ & Hsh & _ & Hk).
    split; [done|]. rewrite Hsh. constructor.
  - unfold spawn_wave in Hs. rewrite E in Hs. by injection Hs as <-.
Qed.

Lemma set_pos_typed x y p : player_typed p -> player_typed (set_pos x y p).
Proof. done. Qed.

Lemma player_shoot_typed oid p :
  player_typed p -> player_typed {| p with p_ch := Character.shoot oid (p_ch p) |}.
Proof.
  intros (Hc & Hsi & Hst & Hm & Hh).
  destruct (shoot_typed oid (p_ch p)) as (Hs' & Hc' & Hsi' & Hh'); [by rewrite Hsi|].
  unfold player_typed. cbn [p_ch max_health]. rewrite Hc', Hsi', Hh'. rewrite Hsi in Hs'. by split_and!.
Qed.

Lemma handle_keys_typed inp w : world_typed w -> world_typed (handle_keys inp w).
Proof.
  intros [Hp He]. unfold handle_keys.
  destruct (key_space inp); split; cbn [player enemies]; try exact He;
    [apply player_shoot_typed|]; by apply set_pos_typed.
Qed.

Lemma enemy_typed_move vel e : enemy_typed e -> enemy_typed (Enemy.move vel e).
Proof. done. Qed.

(** The player after an enemy's [move_shot]: a health change downwards. *)
Lemma player_damaged_typed (p p' : Player) :
  player_typed p -> Character.health_changed p p' -> health (p_ch p') <= health (p_ch p) ->
  player_typed p'.
Proof.
  intros (Hc & Hsi & Hst & Hm & Hh) [->|[h ->]] Hle; [done|].
  cbv [set_health Player_target] in *. split_and!; cbn in *; try done. lia.
Qed.

Lemma enemy_advance_typed w e e' w' :
  world_typed w -> enemy_typed e -> NoDup (ids (shots e)) ->
  enemy_advance w e = Ok (e', w') -> world_typed w' /\ enemy_typed e'.
Proof.
  intros [Hp He] [Hk Hes] Hnd Ha. unfold enemy_advance in Ha.
  set (e1 := Enemy.move enemy_vel e) in Ha. cbn [player] in Ha.
  destruct (Character.move_shot shot_vel (player w) e1) as [[e2 p2]|err] eqn:Hm;
    simpl in Ha; [|discriminate].
  destruct (char_move_shot_typed shot_vel (player w) e1 e2 p2 Hnd Hm Hes) as (Hs2 & Hc2 & Hsi2 & Hh2).
  destruct (Character.move_shot_frame shot_vel (player w) e1 e2 p2 Hnd Hm) as (_ & _ & Hhc).
  assert (Hp2 : player_typed p2) by (eapply player_damaged_typed; eauto).
  assert (He2 : enemy_typed e2) by (split; [by rewrite Hc2, Hsi2|by rewrite Hsi2]).
  assert (He1 : enemy_typed e1) by done.
  assert (Hf : Forall enemy_typed (py_update e2 (py_update e1 (enemies w))))
    by (apply Forall_py_update; [done|by apply Forall_py_update]).
  destruct (randrange 0 (4 * fps) (rng w)) as [r rs]. simpl in Ha.
  destruct (r =? 1); injection Ha as <- <-; simpl.
  - destruct (shoot_typed (next_oid w) e2) as (Hs3 & Hc3 & Hsi3 & _); [by rewrite Hsi2|].
    assert (He3 : enemy_typed (Character.shoot (next_oid w) e2))
      by (split; [by rewrite Hc3, Hsi3, Hc2, Hsi2|by rewrite Hsi3]).
    split; [split; [done|by apply Forall_py_update]|done].
  - done.
Qed.

Lemma enemy_resolve_typed w e w' :
  world_typed w -> enemy_resolve w e = Ok w' -> world_typed w'.
Proof.
  intros [Hp He] Hr. unfold enemy_resolve in Hr.
  destruct (collide e (player w)); [|destruct (_ <? _)]; [..|by injection Hr as <-];
    (destruct (py_remove e (enemies w)) as [es|err] eqn:Hrm; simpl in Hr; [|discriminate]);
    injection Hr as <-; apply py_remove_sublist in Hrm;
    (split; [|by eapply Forall_of_sublist]); [|done].
  destruct Hp as (? & ? & ? & ? & ?). cbv [set_health Player_target get_health].
  split_and!; cbn; try done. lia.
Qed.

(** The loop over the copy [enemies[:]]: the visited enemies are the
    values of the copy. *)
Lemma enemies_loop_typed rest w w' :
  Forall (fun e => enemy_typed e /\ NoDup (ids (shots e))) rest ->
  world_typed w -> res_fold enemy_step rest w = Ok w' -> world_typed w'.
Proof.
  revert w. induction rest as [|e rest IH]; intros w Hrest Hw Hf; simpl in Hf.
  { by injection Hf as <-. }
  apply Forall_cons in Hrest as [[He Hnd] Hrest].
  unfold enemy_step in Hf.
  destruct (enemy_advance w e) as [[e1 w1]|err] eqn:Ha; simpl in Hf; [|discriminate].
  destruct (enemy_advance_typed _ _ _ _ Hw He Hnd Ha) as [Hw1 _].
  destruct (enemy_resolve w1 e1) as [w2|err] eqn:Hr; simpl in Hf; [|discriminate].
  exact (IH w2 Hrest (enemy_resolve_typed _ _ _ Hw1 Hr) Hf).
Qed.

Lemma play_frame_typed inp w w' :
  ids_ok w -> world_typed w -> play_frame inp w = Ok w' -> world_typed w'.
Proof.
  intros Hok Hw Hf. unfold play_frame in Hf.
  destruct (spawn_wave_ok w Hok) as (w1 & Hs & Hok1 & _).
  rewrite Hs in Hf. simpl in Hf. pose proof (spawn_wave_typed _ _ Hw Hs) as Hw1.
  destruct (existsb is_quit (events inp)); [discriminate|].
  pose proof (handle_keys_typed inp _ Hw1) as Hw2.
  destruct (handle_keys_ok inp w1 Hok1) as (Hok2 & _).
  destruct (enemies_step_ok _ Hok2) as (w3 & Hs3 & Hok3 & _).
  rewrite Hs3 in Hf. simpl in Hf.
  assert (Hw3 : world_typed w3).
  { eapply enemies_loop_typed; [|exact Hw2|exact Hs3].
    destruct Hw2 as [_ Hte]. destruct Hok2 as (_ & _ & Hfe & _).
    apply Forall_and; split; [done|].
    eapply Forall_impl; [exact Hfe|]. intros e [[Hnd _] _]. exact Hnd. }
  destruct Hok3 as (Hei & Hps & _).
  destruct (Player.move_shot _ _ _) as [[p es]|err] eqn:Hm; simpl in Hf; [|discriminate].
  injection Hf as <-.
  destruct (player_move_shot_typed _ _ _ _ _ (proj1 Hps) (proj1 Hei) Hm (proj1 Hw3)) as [Hp Hsub].
  split; [done|]. simpl. eapply Forall_of_sublist; [apply Hw3|exact Hsub].
Qed.

Lemma frame_typed inp w w' :
  world_ok w -> world_typed w -> main_frame inp w = Ok w' -> world_typed w'.
Proof.
  intros (Hok & _) Hw Hf. unfold main_frame in Hf.
  pose proof (check_lost_typed _ (respawn_typed _ Hw)) as Hw1.
  pose proof (ids_ok_check_lost _ (ids_ok_respawn _ Hok)) as Hok1.
  destruct (_ && _); [by injection Hf as <-|].
  eapply play_frame_typed; [| |exact Hf]; by destruct (lost _).
Qed.

Lemma world_typed_init rs : world_typed (init_world rs).
Proof. split; [split_and!; try constructor; done|constructor]. Qed.

Lemma reachable_typed_ind w : reachable w -> world_typed w.
Proof.
  induction 1 as [rs|w inp w' Hr IH Hrun Hf]; [apply world_typed_init|].
  exact (frame_typed inp w w' (reachable_ok w Hr) IH Hf).
Qed.
End Frame.

Section Theorems.
Context {AS : Assets}.

(** C10: Typing of the session: in every reachable state the player has
    the images [JESUS] / [JESUS_SHOT], [max_health = 100] and at most
    100 health; every enemy has the images [ENEMY_MAP] binds to one of
    its three kinds; every shot carries the shot image of the
    character that owns it. *)
Theorem reachable_typed w : reachable w -> world_typed w.
Proof. apply reachable_typed_ind. Qed.

(** The green bar is never wider than the red one in a reachable state. *)
Lemma reachable_bar_width_le w :
  reachable w -> 0 <= img_width JESUS ->
  (Player.health_bar_width (player w) <= inject_Z (img_width (char_img (p_ch (player w)))))%Q.
Proof.
  intros Hr Hw. destruct (reachable_typed_ind w Hr) as [(Hc & _ & _ & Hm & Hh) _].
  unfold Player.health_bar_width. rewrite Hc, Hm.
  unfold Qle, Qmult, Qdiv, Qinv, inject_Z. simpl. nia.
Qed.
End Theorems.

(** ** Concrete runs *)

Section Witnesses.
#[local] Existing Instance demo_assets.

(** 300 idle frames from the start state, all random draws 0. *)
Local Abbreviation w300 :=
  (match main_loop (repeat no_input 300) (init_world []) with Ok w => w | Err _ => init_world [] end).

Lemma reachable_typed_witness : world_typed w300.
Proof. apply reachable_typed, (run_idle_reachable 300). Defined.

End Witnesses.

End Typing.
