(* ===== verification/Scenarios.v ===== *)
(** * Scenarios: whole sessions run through [Game.main_loop]

    Concrete sessions of the game loop (src/main.py, [main], lines
    186-252) evaluated in the kernel with the image sizes of
    [demo_assets]:
    - the end-to-end scenario of the specification: one enemy at
      [(100, -50)] and no player action; it crosses [HEIGHT + 155] in
      frame 528, costs one resurrection and leaves the player's health
      untouched ([enemy_escape_scenario]);
    - a reachable state whose health bar has negative width: the bar of
      [Player.health_bar] is drawn (line 196) before the respawn check
      (lines 198-200), and its ratio is not clamped
      ([reachable_negative_health_bar]);
    - the frame in which the game-over count passes [FPS * 3]: it sets
      [run = False] (lines 206-210) and still plays the rest of the frame,
      so a new wave is spawned in a session that is over
      ([game_over_final_frame]). *)

From Stdlib Require Import QArith.
From S2P Require Import Prelude PyLoop Collision Shot Character Player Enemy Game GameSafety.
Local Open Scope Z_scope.

Module Scenarios.
Import Game GameSafety.

Section Scenarios.
#[local] Existing Instance demo_assets.

(** The state of a session after [n] frames without input, from the
    start state with random draws [rs]. *)
Definition run_from (rs : list Z) (n : nat) : World :=
  match main_loop (repeat no_input n) (init_world rs) with
  | Ok w => w
  | Err _ => init_world rs
  end.

(** The specification's scenario: the start state with one enemy at
    [(100, -50)] (moving [enemy_vel = 2] per frame) in place of a wave. *)
Definition w_scn : World :=
  {| (init_world []) with enemies := [Character.init 1 100 (-50) 100 SATAN SATAN_SHOT];
                          next_oid := 2 |}.

(** Random draws under which the first three enemies of the first
    wave start at [x = 50 + 320 = 370], the player's column, and
    [y = -1500 + 1399 = -101]; all later draws are 0.  The three fall
    onto the player in the same frame, each collision costing 50
    health. *)
Definition rs_hit : list Z := [320; 1399; 0; 320; 1399; 0; 320; 1399; 0].

Lemma run_from_reachable rs n : reachable (run_from rs n).
Proof.
  unfold run_from.
  destruct (main_loop (repeat no_input n) (init_world rs)) as [w|e] eqn:E;
    [apply (main_loop_reachable _ _ _ (reach_init rs) E) | apply reach_init].
Qed.

(** End-to-end scenario of the specification: with one enemy at
    [(100, -50)] and no player action, the enemy is still on the field
    after 527 frames; in frame 528 it crosses [HEIGHT + 155] and is
    removed, with resurrections decremented from 9 to 8 and the
    player's health still 100; after 800 frames it is gone, one life
    lost, the player untouched. *)
Example enemy_escape_scenario :
  (exists w, main_loop (repeat no_input 527) w_scn = Ok w /\
     ids (enemies w) = [1%nat] /\ resurrections w = 9) /\
  (exists w, main_loop (repeat no_input 528) w_scn = Ok w /\
     enemies w = [] /\ resurrections w = 8 /\ health (p_ch (player w)) = 100) /\
  (exists w, main_loop (repeat no_input 800) w_scn = Ok w /\
     (1%nat ∉ ids (enemies w)) /\ resurrections w = 8 /\ health (p_ch (player w)) = 100).
Proof.
  split; [|split]; (eexists; split; [vm_compute; reflexivity|]);
    repeat split; try decide_concrete; vm_compute; reflexivity.
Qed.

(** A reachable state of the game draws a health bar of negative
    width: after 311 frames of a session with draws [rs_hit] the
    player's health is -50 when [redraw_window] runs (before the respawn
    check), and [health_bar] scales the bar by [health / max_health]
    without clamping. *)
Example reachable_negative_health_bar :
  reachable (run_from rs_hit 311) /\ health (p_ch (player (run_from rs_hit 311))) = -50 /\
  (Player.health_bar_width (player (run_from rs_hit 311)) < 0)%Q.
Proof.
  split; [apply run_from_reachable|].
  split; vm_compute; reflexivity.
Qed.

(** The frame that ends the game still plays: from the reachable
    state after 2686 idle frames, in the game-over phase, the frame in
    which [lost_count] passes [FPS * 3] sets [run] to false and, the
    field being empty, spawns the next wave of 14 enemies and raises
    the level. *)
Example game_over_final_frame :
  reachable (run_from [] 2686) /\ lost (run_from [] 2686) = true /\
  run (run_from [] 2686) = true /\
  exists w', main_frame no_input (run_from [] 2686) = Ok w' /\ run w' = false /\
    fps * 3 < lost_count w' /\ level w' = level (run_from [] 2686) + 1 /\
    length (enemies w') = 14%nat.
Proof.
  split; [apply run_from_reachable|].
  split; [vm_compute; reflexivity|]. split; [vm_compute; reflexivity|].
  eexists. split; [vm_compute; reflexivity|]. repeat split; vm_compute; reflexivity.
Qed.
End Scenarios.

End Scenarios.
