(* ===== verification/Session.v ===== *)
(** * Session: the phases of a session and their refinement by [main]

    The specification (section 4.7) describes a session as a state
    machine with the states [Playing] (while resurrections are left) and
    [Lost] (a countdown of [3 * fps] frames during which gameplay is
    suspended) and the end of the session.  This file states that
    machine, with its guards on the resurrections, as the step relation
    [phase_step] on [phase], abstracts each state of [main]
    (src/main.py, lines 150-252) to its phase with [phase_of] (the
    variables [run], [lost], [lost_count] and [resurrections]), and
    proves that every frame of [main] from a reachable state is a step
    of the machine ([frame_refines]), so that every reachable state has
    a phase the machine reaches ([reachable_phase]).  The frames of the
    [Lost] phase only count and respawn: enemies, shots, level and
    identities are left as they are ([lost_suspends]); the frame that
    ends the countdown, where the specification stops, still plays a
    whole gameplay frame ([last_countdown_frame_plays]). *)

From stdpp Require Import gmap strings.
From S2P Require Import Prelude PyLoop Collision Shot Character Player Enemy Game GameSafety Scenarios.
Local Open Scope Z_scope.

Module Session.
Import Game GameSafety Scenarios.

(** The phases of the specification: [Playing r] with [r]
    resurrections left, [Lost k] after [k] frames of countdown, and the
    end of the session. *)
Inductive phase := Playing (r : Z) | Lost (k : Z) | Ended.

(** The transitions of section 4.7, with their guards.  A frame first
    respawns a dead player, which costs one resurrection: [r1], the
    count after that, is [r] or [r - 1] (the machine does not see the
    health).  With [r1 > 0] the frame plays on, and gameplay never adds
    resurrections; with [r1 <= 0] the session is lost and the countdown
    starts at 1; the countdown advances one frame at a time and the
    session ends after [3 * fps] frames of it. *)
Inductive phase_step : phase -> phase -> Prop :=
| ps_play r r1 r' :
    r - 1 <= r1 <= r -> 0 < r1 -> r' <= r1 -> phase_step (Playing r) (Playing r')
| ps_lose r r1 :
    r - 1 <= r1 <= r -> r1 <= 0 -> phase_step (Playing r) (Lost 1)
| ps_count k : 0 <= k < fps * 3 -> phase_step (Lost k) (Lost (k + 1))
| ps_end : phase_step (Lost (fps * 3)) Ended.

(** The phases the machine reaches from the start of a session, with
    the 9 resurrections of line 154. *)
Inductive phase_reach : phase -> Prop :=
| pr_start : phase_reach (Playing 9)
| pr_step p p' : phase_reach p -> phase_step p p' -> phase_reach p'.

Section Refinement.
Context {AS : Assets}.

(** The abstraction of a state of [main] (lines 151, 169-170, 202-210). *)
Definition phase_of (w : World) : phase :=
  if negb (run w) then Ended else if lost w then Lost (lost_count w) else Playing (resurrections w).

(** The gameplay part of a frame leaves the session flags alone. *)
Lemma play_frame_flags inp w w' :
  ids_ok w -> play_frame inp w = Ok w' ->
  run w' = run w /\ lost w' = lost w /\ lost_count w' = lost_count w /\
  resurrections w' <= resurrections w.
Proof.
  intros Hw Hp. destruct (play_frame_ok inp w Hw) as [(w1 & Hp1 & _ & ? & ? & ? & ? & _)|[Hp1 _]];
    rewrite Hp in Hp1; [injection Hp1 as <-; done|discriminate].
Qed.

(** The respawn block keeps the flags and costs at most one resurrection. *)
Lemma respawn_flags w :
  run (respawn w) = run w /\ lost (respawn w) = lost w /\
  lost_count (respawn w) = lost_count w /\
  resurrections w - 1 <= resurrections (respawn w) <= resurrections w.
Proof. unfold respawn. case_bool_Z; simpl; repeat split; lia. Qed.

Lemma frame_step w inp w' :
  world_ok w -> run w = true -> main_frame inp w = Ok w' ->
  phase_step (phase_of w) (phase_of w').
Proof.
  intros (Hw & _ & Hlost & Hlc0 & Hlc) Hrun Hf. specialize (Hlc Hrun).
  pose proof (respawn_flags w) as (Hr1 & Hl1 & Hc1 & Hres1).
  assert (Hw1 : ids_ok (respawn w)) by by apply ids_ok_respawn.
  unfold phase_of at 1. rewrite Hrun. simpl. destruct (lost w) eqn:Hl.
  - unfold main_frame in Hf. rewrite (gate_no_life w (Hlost eq_refl)) in Hf. simpl in Hf.
    destruct (Z.ltb_spec (fps * 3) (lost_count w + 1)) as [Hend|Hcnt]; simpl in Hf.
    + apply play_frame_flags in Hf as (Hrun' & _); [|exact Hw1].
      unfold phase_of. rewrite Hrun'. simpl.
      replace (lost_count w) with (fps * 3) by (unfold fps in *; lia). constructor.
    + injection Hf as <-. unfold phase_of. simpl. rewrite Hr1, Hrun. simpl.
      constructor. lia.
  - rewrite (Hlc0 eq_refl) in Hc1. unfold main_frame, check_lost in Hf.
    destruct (Z.leb_spec (resurrections (respawn w)) 0) as [Hdead|Halive]; simpl in Hf.
    + rewrite Hc1 in Hf. simpl in Hf. injection Hf as <-.
      unfold phase_of. simpl. rewrite Hr1, Hrun. simpl.
      exact (ps_lose _ (resurrections (respawn w)) Hres1 Hdead).
    + rewrite Hl1 in Hf. simpl in Hf.
      apply play_frame_flags in Hf as (Hrun' & Hl' & _ & Hres'); [|exact Hw1].
      unfold phase_of. rewrite Hrun', Hl', Hr1, Hl1, Hrun. simpl.
      exact (ps_play _ (resurrections (respawn w)) _ Hres1 Halive Hres').
Qed.

Lemma phase_init rs : phase_of (init_world rs) = Playing 9.
Proof. reflexivity. Qed.


(** Every reachable state of [main] abstracts to a phase that the
    specification's machine reaches from [Playing 9]. *)
Lemma reachable_phase w : reachable w -> phase_reach (phase_of w).
Proof.
  induction 1 as [rs|w inp w' Hr IH Hrun Hf]; [apply pr_start|].
  eapply pr_step; [exact IH|]. exact (frame_step w inp w' (reachable_ok w Hr) Hrun Hf).
Qed.

(** C9: Refinement of the session machine of the specification: every
    frame of [main] from a reachable running state is a step of
    [phase_step] between the phases of the two states: playing goes on
    only while resurrections are left after the respawn, and never
    gains any; the countdown starts at 1 exactly when none is left,
    advances by one, and after [3 * fps] frames of it the session
    ends. *)
Theorem frame_refines w inp w' :
  reachable w -> run w = true -> main_frame inp w = Ok w' ->
  phase_step (phase_of w) (phase_of w').
Proof. intros Hr. apply frame_step, reachable_ok, Hr. Qed.

(** C15: During the countdown gameplay is suspended: a frame from a
    reachable state in the phase [Lost k] before its last frame only
    respawns the player and advances [lost_count]; the enemies, the
    shots, the level, the random draws and the identities stay as they
    are, whatever the input (the quit test is not reached either). *)
Theorem lost_suspends w inp k :
  reachable w -> phase_of w = Lost k -> k < fps * 3 ->
  main_frame inp w = Ok {| (respawn w) with lost := true; lost_count := k + 1 |}.
Proof.
  intros Hr Hph Hc. pose proof (reachable_ok w Hr) as (_ & _ & Hlost & _).
  unfold phase_of in Hph. destruct (run w) eqn:Hrun; [|discriminate].
  destruct (lost w) eqn:Hl; [|discriminate]. simpl in Hph. injection Hph as <-.
  unfold main_frame. rewrite (gate_no_life w (Hlost eq_refl)). simpl.
  destruct (Z.ltb_spec (fps * 3) (lost_count w + 1)); [unfold fps in *; lia|done].
Qed.

(** C16: The frame that ends the countdown still plays: from a reachable
    state at the last countdown frame ([Lost (3 * fps)]), [main_frame]
    is the whole gameplay part of a frame ([play_frame]: wave spawning,
    quit test, keys, enemies, player shots) on the respawned state with
    [run] cleared, where the specification ends the session. *)
Theorem last_countdown_frame_plays w inp :
  reachable w -> phase_of w = Lost (fps * 3) ->
  main_frame inp w =
    play_frame inp {| (respawn w) with lost := true; lost_count := fps * 3 + 1; run := false |}.
Proof.
  intros Hr Hph. pose proof (reachable_ok w Hr) as (_ & _ & Hlost & _).
  unfold phase_of in Hph. destruct (run w) eqn:Hrun; [|discriminate].
  destruct (lost w) eqn:Hl; [|discriminate]. simpl in Hph. injection Hph as Hc.
  unfold main_frame. rewrite (gate_no_life w (Hlost eq_refl)). simpl. rewrite Hc.
  destruct (Z.ltb_spec (fps * 3) (fps * 3 + 1)); [|unfold fps in *; lia]. done.
Qed.
End Refinement.

(** ** Concrete runs *)

Section Witnesses.
#[local] Existing Instance demo_assets.

(** After 2600 idle frames with all draws 0 the session is 94 frames
    into its countdown. *)
Local Abbreviation w_lost := (run_from [] 2600).

Lemma frame_refines_witness :
  phase_step (phase_of w_lost)
    (phase_of {| (respawn w_lost) with lost := true; lost_count := lost_count w_lost + 1 |}).
Proof.
  apply (frame_refines w_lost no_input); [apply run_from_reachable|vm_compute; reflexivity|].
  vm_compute. reflexivity.
Defined.

Lemma lost_suspends_witness :
  main_frame no_input w_lost =
    Ok {| (respawn w_lost) with lost := true; lost_count := 94 + 1 |}.
Proof.
  apply lost_suspends; [apply run_from_reachable|vm_compute; reflexivity..].
Defined.

(** After 2686 idle frames the session is at its last countdown frame. *)
Lemma last_countdown_frame_plays_witness :
  main_frame no_input (run_from [] 2686) =
    play_frame no_input
      {| (respawn (run_from [] 2686)) with lost := true; lost_count := fps * 3 + 1; run := false |}.
Proof. apply last_countdown_frame_plays; [apply run_from_reachable|vm_compute; reflexivity]. Defined.
End Witnesses.

End Session.
