(* ===== verification/Rendering.v ===== *)
(** * Rendering: the drawing code as a list of draw commands

    The drawing methods of src/main.py ([Shot.draw], lines 34-35;
    [Character.draw], lines 59-62; [Player.health_bar] and
    [Player.draw], lines 114-125; the nested [redraw_window] of [main],
    lines 172-192) only write to the window.  They are modelled as
    functions from the objects to the list of window operations they
    perform, in order: [Blit] (a [WIN.blit] / [window.blit] of an image
    or of a rendered text), [Rect] ([pygame.draw.rect]) and [Update]
    ([pygame.display.update]).  Coordinates are rationals because
    [WIDTH / 2 - lost_label.get_width() / 2] and the health bar ratio are
    Python floats.  The labels are the f-strings of lines 176-177, with
    [str] of an integer as stdpp's [pretty]; the width of a rendered text
    comes from the font provider, the class [Fonts].

    Theorems: every live object is drawn exactly once per frame
    ([redraw_sprites]); the GAME OVER label is drawn
    exactly when [lost] holds, centred ([redraw_game_over]); the labels
    print [level] and [resurrections] so that they can be read back
    ([label_roundtrip]); in a reachable state the green bar is never
    wider than the red one ([reachable_health_bar_drawn]). *)

From Stdlib Require Import QArith Ascii.
From stdpp Require Import pretty.
From S2P Require Import Prelude Collision Shot Character Player Game GameSafety Typing Scenarios.
Local Open Scope Z_scope.

(** ** Surfaces and window operations *)

(** [pygame.font.SysFont(name, size)]. *)
Record font := { font_name : string; font_size : Z }.

(** A blitted surface: a loaded image, or [font.render(text, True, color)]. *)
Inductive surface :=
| SImg (i : Img)
| SText (f : font) (text : string) (color : Z * Z * Z).

Inductive draw_cmd :=
| Blit (s : surface) (x y : Q)
| Rect (color : Z * Z * Z) (x y w h : Q)
| Update.

(** The font provider: the width of a rendered text. *)
Class Fonts := text_width : font -> string -> Z.

(** A font provider for the concrete runs: a fixed advance per character
    of a quarter of the font size. *)
Definition demo_fonts : Fonts := fun f t => font_size f / 4 * Z.of_nat (String.length t).

Module Render.

Definition RED : Z * Z * Z := (255, 0, 0).
Definition GREEN : Z * Z * Z := (0, 255, 0).
Definition CYAN : Z * Z * Z := (0, 255, 255).

(** [main_font], [title_font] (lines 155-156). *)
Definition main_font : font := {| font_name := "comicsans"; font_size := 40 |}.
Definition title_font : font := {| font_name := "comicsans"; font_size := 100 |}.

(** The f-strings of lines 176-177. *)
Definition level_text (level : Z) : string := "LEVEL: " +:+ pretty level.
Definition resurrections_text (r : Z) : string := "RESURRECTIONS: " +:+ pretty r.

Section Draw.
Context {AS : Assets} {FS : Fonts}.

(** [Shot.draw] (lines 34-35). *)
Definition shot_draw (s : Shot) : list draw_cmd :=
  [Blit (SImg (Shot.shot_img s)) (inject_Z (shot_x s)) (inject_Z (shot_y s))].

(** [Character.draw] (lines 59-62). *)
Definition char_draw (c : Character) : list draw_cmd :=
  Blit (SImg (char_img c)) (inject_Z (ch_x c)) (inject_Z (ch_y c)) ::
  flat_map shot_draw (shots c).

(** [Player.health_bar] (lines 114-121): a red bar of the sprite's width
    and a green bar scaled by [health / max_health]. *)
Definition health_bar (p : Player) : list draw_cmd :=
  let c := p_ch p in
  let y := inject_Z (ch_y c + img_height (char_img c) + 10) in
  [Rect RED (inject_Z (ch_x c)) y (inject_Z (img_width (char_img c))) 10;
   Rect GREEN (inject_Z (ch_x c)) y (Player.health_bar_width p) 10].

(** [Player.draw] (lines 123-125). *)
Definition player_draw (p : Player) : list draw_cmd := char_draw (p_ch p) ++ health_bar p.

(** The GAME OVER label at [(WIDTH / 2 - lost_label.get_width() / 2, 450)]
    (lines 189-190). *)
Definition lost_label_x : Q :=
  inject_Z WIDTH / 2 - inject_Z (text_width title_font "GAME OVER") / 2.

(** [redraw_window] (lines 172-192). *)
Definition redraw_window (w : World) : list draw_cmd :=
  [Blit (SImg BACKGROUND) 0 0;
   Blit (SText main_font (level_text (level w)) CYAN) 10 (inject_Z (HEIGHT - 60));
   Blit (SText main_font (resurrections_text (resurrections w)) RED) 10 (inject_Z (HEIGHT - 30))] ++
  flat_map char_draw (enemies w) ++
  player_draw (player w) ++
  (if lost w then [Blit (SText title_font "GAME OVER" RED) lost_label_x 450] else []) ++
  [Update].
End Draw.

(** ** Reading the screen back *)

(** The image blits of a list of window operations, with positions. *)
Definition img_blits (cmds : list draw_cmd) : list (Img * Q * Q) :=
  flat_map (fun d => match d with Blit (SImg i) x y => [(i, x, y)] | _ => [] end) cmds.

(** The sprites of a character: its image and its shots' images, at
    their positions. *)
Definition char_sprites (c : Character) : list (Img * Q * Q) :=
  (char_img c, inject_Z (ch_x c), inject_Z (ch_y c)) ::
  map (fun s => (Shot.shot_img s, inject_Z (shot_x s), inject_Z (shot_y s))) (shots c).

(** Every live object of a session state: the player's first. *)
Definition live_sprites (w : World) : list (Img * Q * Q) :=
  flat_map char_sprites (p_ch (player w) :: enemies w).

(** A decimal reader, the left inverse the labels are checked against. *)
Definition digit_val (c : Ascii.ascii) : option N :=
  let n := Ascii.N_of_ascii c in
  if decide (48 <= n < 58)%N then Some (n - 48)%N else None.

Fixpoint parse_N_acc (s : string) (acc : N) : option N :=
  match s with
  | EmptyString => Some acc
  | String c s' => d ← digit_val c; parse_N_acc s' (acc * 10 + d)%N
  end.

Definition parse_Z (s : string) : option Z :=
  match s with
  | String c s' =>
      if decide (c = "-"%char) then (fun n => - Z.of_N n) <$> parse_N_acc s' 0
      else Z.of_N <$> parse_N_acc s 0
  | EmptyString => None
  end.

Fixpoint strip_prefix (p s : string) : option string :=
  match p, s with
  | EmptyString, _ => Some s
  | String c p', String d s' => if decide (c = d) then strip_prefix p' s' else None
  | String _ _, EmptyString => None
  end.

Definition label_value (prefix s : string) : option Z :=
  s' ← strip_prefix prefix s; parse_Z s'.

(** ** The decimal labels read back *)

Lemma digit_val_char d : (d < 10)%N -> digit_val (pretty_N_char d) = Some d.
Proof.
  intros Hd.
  assert (d = 0 \/ d = 1 \/ d = 2 \/ d = 3 \/ d = 4 \/ d = 5 \/ d = 6 \/ d = 7 \/ d = 8 \/ d = 9)%N
    as Hc by lia.
  repeat destruct Hc as [->|Hc]; [reflexivity..|subst; reflexivity].
Qed.

Lemma pretty_N_char_not_dash d : pretty_N_char d <> "-"%char.
Proof. unfold pretty_N_char. repeat case_match; discriminate. Qed.

Lemma parse_pretty_N_go x : forall s acc,
  exists k, parse_N_acc (pretty_N_go x s) acc = parse_N_acc s (acc * 10 ^ k + x)%N.
Proof.
  induction (N.lt_wf_0 x) as [x _ IH]; intros s acc.
  destruct (decide (x = 0%N)) as [->|Hx].
  { exists 0%N. rewrite pretty_N_go_0. do 2 f_equal. lia. }
  rewrite pretty_N_go_step by lia.
  destruct (IH (x `div` 10)%N (N.div_lt x 10 ltac:(lia) ltac:(lia))
              (String (pretty_N_char (x `mod` 10)) s) acc) as [k ->].
  exists (k + 1)%N. simpl. rewrite digit_val_char by (apply N.mod_lt; lia). simpl.
  f_equal. rewrite N.pow_add_r, N.pow_1_r.
  pose proof (N.div_mod x 10 ltac:(lia)).
  set (q := (x `div` 10)%N) in *. set (r := (x `mod` 10)%N) in *. lia.
Qed.

Lemma pretty_N_go_head x s :
  (0 < x)%N -> exists d t, (d < 10)%N /\ pretty_N_go x s = String (pretty_N_char d) t.
Proof.
  revert s. induction (N.lt_wf_0 x) as [x _ IH]; intros s Hx.
  rewrite pretty_N_go_step by lia.
  destruct (decide (x `div` 10 = 0)%N) as [H0|H0].
  - rewrite H0, pretty_N_go_0. exists (x `mod` 10)%N, s. split; [apply N.mod_lt; lia|done].
  - apply IH; [apply N.div_lt; lia|]. by apply N.neq_0_lt_0.
Qed.

Lemma parse_pretty_pos p : parse_N_acc (pretty (N.pos p)) 0 = Some (N.pos p).
Proof.
  unfold pretty, pretty_N. rewrite decide_False by done.
  destruct (parse_pretty_N_go (N.pos p) "" 0) as [k ->]. done.
Qed.

Lemma parse_Z_pretty z : parse_Z (pretty z) = Some z.
Proof.
  destruct z as [|p|p]; [reflexivity| |].
  - change (pretty (Z.pos p)) with (pretty (N.pos p)).
    destruct (pretty_N_go_head (N.pos p) "" ltac:(lia)) as (d & t & _ & Ht).
    assert (Hp : pretty (N.pos p) = String (pretty_N_char d) t).
    { unfold pretty, pretty_N. by rewrite decide_False. }
    unfold parse_Z. rewrite Hp. rewrite decide_False by apply pretty_N_char_not_dash.
    rewrite <- Hp, parse_pretty_pos. reflexivity.
  - change (pretty (Z.neg p)) with (String "-" (pretty (N.pos p))).
    unfold parse_Z. rewrite decide_True by done. rewrite parse_pretty_pos. reflexivity.
Qed.

Lemma strip_prefix_app p s : strip_prefix p (p +:+ s) = Some s.
Proof. induction p as [|c p IH]; simpl; [done|]. by rewrite decide_True. Qed.

Lemma label_value_text prefix z : label_value prefix (prefix +:+ pretty z) = Some z.
Proof. unfold label_value. rewrite strip_prefix_app. apply parse_Z_pretty. Qed.

(** ** What a frame draws *)

Lemma img_blits_app l1 l2 : img_blits (l1 ++ l2) = img_blits l1 ++ img_blits l2.
Proof. apply flat_map_app. Qed.

Section Frame.
Context {AS : Assets} {FS : Fonts}.

Lemma img_blits_char_draw c : img_blits (char_draw c) = char_sprites c.
Proof.
  unfold char_draw, char_sprites. simpl. f_equal.
  induction (shots c) as [|sh l IH]; [done|]. simpl. by rewrite IH.
Qed.

Lemma img_blits_chars l : img_blits (flat_map char_draw l) = flat_map char_sprites l.
Proof.
  induction l as [|c l IH]; [done|]. cbn [flat_map]. by rewrite img_blits_app, img_blits_char_draw, IH.
Qed.

(** No text is blitted by the drawing of a character or of the bar. *)
Lemma text_not_in_player_draw f t col x y l p :
  ~ In (Blit (SText f t col) x y) (flat_map char_draw l ++ player_draw p).
Proof.
  assert (Hc : forall c, ~ In (Blit (SText f t col) x y) (char_draw c)).
  { intros c [H|H]; [discriminate|].
    apply in_flat_map in H as (sh & _ & [H|[]]). discriminate. }
  unfold player_draw. rewrite !in_app_iff. intros [H|[H|H]].
  - apply in_flat_map in H as (c & _ & H). exact (Hc c H).
  - exact (Hc _ H).
  - unfold health_bar in H. simpl in H. intuition discriminate.
Qed.
End Frame.

Section FrameTheorems.
Context {AS : Assets} {FS : Fonts}.

(** C30: Every frame draws the background and then every live object of
    the session exactly once, at its position: the image blits of
    [redraw_window] are, up to order, the background at [(0, 0)] and
    the sprite and shots of the player and of every enemy. *)
Theorem redraw_sprites w :
  img_blits (redraw_window w) ≡ₚ (BACKGROUND, 0%Q, 0%Q) :: live_sprites w.
Proof.
  unfold redraw_window, player_draw, live_sprites.
  rewrite !img_blits_app, img_blits_chars, img_blits_char_draw.
  assert (Hb : img_blits (health_bar (player w)) = []) by reflexivity.
  assert (Hl : img_blits (if lost w then [Blit (SText title_font "GAME OVER" RED) lost_label_x 450]
                          else []) = []) by (by destruct (lost w)).
  rewrite Hb, Hl, !app_nil_r. cbn [flat_map img_blits app].
  constructor. apply Permutation_app_comm.
Qed.

(** C31: The GAME OVER label is drawn in a frame exactly when [lost] is
    set, at [(lost_label_x, 450)], and [lost_label_x] centres the
    rendered text in the window. *)
Theorem redraw_game_over w x y :
  (In (Blit (SText title_font "GAME OVER" RED) x y) (redraw_window w) <->
     lost w = true /\ x = lost_label_x /\ y = 450%Q) /\
  (lost_label_x + inject_Z (text_width title_font "GAME OVER") / 2 ==
     inject_Z WIDTH / 2)%Q.
Proof.
  split; [|unfold lost_label_x; ring].
  unfold redraw_window. rewrite !in_app_iff. split.
  - intros [H|[H|[H|H]]].
    + simpl in H. intuition discriminate.
    + destruct (text_not_in_player_draw title_font "GAME OVER" RED x y (enemies w) (player w)).
      by apply in_app_iff; left.
    + destruct (text_not_in_player_draw title_font "GAME OVER" RED x y (enemies w) (player w)).
      by apply in_app_iff; right.
    + destruct (lost w); simpl in H; [|intuition discriminate].
      destruct H as [[H|[]]|[H|[]]]; [|discriminate].
      injection H as Hx Hy. by rewrite <- Hx, <- Hy.
  - intros (-> & -> & ->). right; right; right. left. by left.
Qed.

(** C32: The two labels of every frame print the session counters so that
    they read back: the text blitted at [(10, HEIGHT - 60)] is
    ["LEVEL: "] followed by the decimal [level], the one at
    [(10, HEIGHT - 30)] ["RESURRECTIONS: "] followed by the decimal
    [resurrections], negative values included, and reading them
    gives the counters back. *)
Theorem label_roundtrip w :
  exists tl tr,
    In (Blit (SText main_font tl CYAN) 10 (inject_Z (HEIGHT - 60))) (redraw_window w) /\
    In (Blit (SText main_font tr RED) 10 (inject_Z (HEIGHT - 30))) (redraw_window w) /\
    label_value "LEVEL: " tl = Some (level w) /\
    label_value "RESURRECTIONS: " tr = Some (resurrections w).
Proof.
  exists (level_text (level w)), (resurrections_text (resurrections w)).
  split; [by right; left|]. split; [by right; right; left|].
  split; apply label_value_text.
Qed.
(** C29: In every reachable state the health bar is drawn as a red
    rectangle of the sprite's width and, on top of it at the same place,
    a green rectangle that is never wider ([health] never exceeds
    [max_health]); the green width can still be negative
    ([Player.health_bar_negative], and Scenarios.v for a reachable
    state where it is). *)
Theorem reachable_health_bar_drawn w :
  GameSafety.reachable w -> 0 <= img_width JESUS ->
  exists x y wr wg,
    health_bar (player w) = [Rect RED x y wr 10; Rect GREEN x y wg 10] /\ (wg <= wr)%Q.
Proof.
  intros Hr Hw. do 4 eexists. split; [reflexivity|].
  exact (Typing.reachable_bar_width_le w Hr Hw).
Qed.
End FrameTheorems.

(** ** Concrete runs *)

Section Witnesses.
#[local] Existing Instance demo_assets.
#[local] Existing Instance demo_fonts.

Lemma reachable_health_bar_drawn_witness :
  exists x y wr wg,
    health_bar (player (Scenarios.run_from [] 600)) =
      [Rect RED x y wr 10; Rect GREEN x y wg 10] /\ (wg <= wr)%Q.
Proof.
  apply reachable_health_bar_drawn; [apply Scenarios.run_from_reachable|].
  apply Z.leb_le. reflexivity.
Defined.
End Witnesses.

End Render.
