(* ===== verification/Menu.v ===== *)
(** * Menu: the menu screen [main_menu] (src/main.py, lines 255-273)

    [main_menu] draws a title, then handles the pending events: [QUIT]
    clears its [run] flag, [MOUSEBUTTONDOWN] calls [main()], which
    plays a whole session.  The menu's state is [Menu]: its [run] flag,
    the state of the [random] module (shared by all sessions, since
    [main] draws from the global generator) and, for the theorems, the
    final states of the sessions played.  The inputs are explicit: one
    batch of events per iteration of the menu loop, and one script of
    frame inputs per session started.  A session is [Game.main_loop] from
    [init_world]; its [SystemExit] (a [QUIT] during play calls [quit()])
    ends the program.  A click with no session script left is reported
    as [OutOfFuel]: the script given to the model was too short.

    Theorems: the sessions the menu plays are exactly [run_sessions]
    (each from the initial state of [main], nothing but the random
    generator carried over from the previous one) on the scripts of the
    clicks up to the batch of the first [QUIT] ([menu_clicks]), so every
    finished session is a reachable state of [main]
    ([main_menu_sessions]);
    a batch of events stops the menu exactly when it holds a [QUIT],
    and starts one session per click, also for the clicks after the
    [QUIT] ([menu_events_spec]). *)

From Stdlib Require Import QArith.
From stdpp Require Import gmap strings.
From S2P Require Import Prelude Collision Shot Character Player Game GameSafety Rendering.
Local Open Scope Z_scope.

Record Menu := { m_run : bool; m_rng : list Z; m_played : list World }.

Module MainMenu.
Import Game GameSafety.

(** [event.type == pygame.MOUSEBUTTONDOWN]. *)
Definition is_click (e : event) : bool :=
  match e with MOUSEBUTTONDOWN => true | _ => false end.

(** [title_font] of line 256. *)
Definition menu_font : font := {| font_name := "comicsans"; font_size := 70 |}.

Section Menu.
Context {AS : Assets} {FS : Fonts}.

(** Lines 259-263: the menu screen of one iteration. *)
Definition menu_draw : list draw_cmd :=
  [Blit (SImg BACKGROUND) 0 0;
   Blit (SText menu_font "PRESS THE MOUSE TO BEGIN" Render.CYAN)
     (inject_Z WIDTH / 2 - inject_Z (text_width menu_font "PRESS THE MOUSE TO BEGIN") / 2) 450;
   Update].

(** [main()] (lines 150-252) on the frame inputs of one session, with the
    generator state [rs]. *)
Definition main_session (frames : list Input) (rs : list Z) : res World :=
  main_loop frames (init_world rs).

(** Lines 264-268: [for event in pygame.event.get()] over one batch;
    [ss] are the scripts of the sessions still to be started. *)
Fixpoint menu_events (evs : list event) (m : Menu) (ss : list (list Input))
    : res (Menu * list (list Input)) :=
  match evs with
  | [] => Ok (m, ss)
  | e :: rest =>
      let m := if is_quit e then {| m with m_run := false |} else m in
      if is_click e then
        match ss with
        | [] => Err OutOfFuel
        | frames :: ss' =>
            let? w := main_session frames (m_rng m) in
            menu_events rest {| m with m_rng := rng w; m_played := m_played m ++ [w] |} ss'
        end
      else menu_events rest m ss
  end.

(** Lines 257-270: [while run:] over the given batches of events. *)
Fixpoint main_menu (batches : list (list event)) (m : Menu) (ss : list (list Input))
    : res Menu :=
  match batches with
  | [] => Ok m
  | evs :: rest =>
      if m_run m then let? '(m', ss') := menu_events evs m ss in main_menu rest m' ss'
      else Ok m
  end.

(** The menu when the program starts, with the generator state [rs]. *)
Definition menu_init (rs : list Z) : Menu := {| m_run := true; m_rng := rs; m_played := [] |}.
End Menu.

(** The number of clicks of a batch. *)
Definition clicks (evs : list event) : nat := length (filter (fun e => is_click e = true) evs).

(** The clicks the menu loop handles on the given batches: all clicks
    of each batch up to and including the first batch that holds a
    [QUIT], after which [while run:] stops. *)
Fixpoint menu_clicks (batches : list (list event)) : nat :=
  match batches with
  | [] => 0
  | evs :: rest => clicks evs + (if existsb is_quit evs then 0 else menu_clicks rest)
  end.

(** The reference: sessions played one after the other on the given
    scripts, each from [init_world] and the generator state the previous
    one left, with their final states and the final generator state. *)
Fixpoint run_sessions `{Assets} (ss : list (list Input)) (rs : list Z)
    : res (list World * list Z) :=
  match ss with
  | [] => Ok ([], rs)
  | frames :: ss' =>
      let? w := MainMenu.main_session frames rs in
      let? '(ws, rs') := run_sessions ss' (rng w) in Ok (w :: ws, rs')
  end.

Section MenuTheorems.
Context {AS : Assets} {FS : Fonts}.

Lemma main_session_reachable frames rs w :
  main_session frames rs = Ok w -> reachable w.
Proof. apply main_loop_reachable, reach_init. Qed.

Lemma menu_events_played evs m ss m' ss' :
  menu_events evs m ss = Ok (m', ss') ->
  Forall reachable (m_played m) -> Forall reachable (m_played m').
Proof.
  revert m ss. induction evs as [|e rest IH]; intros m ss Hm Hf; simpl in Hm.
  { by injection Hm as <- _. }
  destruct (is_click e); [|eapply IH; [exact Hm|by destruct (is_quit e)]].
  destruct ss as [|frames ss]; [discriminate|].
  destruct (main_session _ _) as [w|err] eqn:Hs; simpl in Hm; [|discriminate].
  eapply IH; [exact Hm|]. simpl. apply Forall_app. split; [by destruct (is_quit e)|].
  constructor; [by eapply main_session_reachable|constructor].
Qed.

Lemma menu_events_count evs m ss m' ss' :
  menu_events evs m ss = Ok (m', ss') ->
  m_run m' = m_run m && negb (existsb is_quit evs) /\
  length (m_played m') = (length (m_played m) + clicks evs)%nat.
Proof.
  revert m ss. induction evs as [|e rest IH]; intros m ss Hm; simpl in Hm.
  { injection Hm as <- _. rewrite andb_true_r. split; [done|]. unfold clicks. simpl. lia. }
  unfold clicks. simpl.
  destruct e; simpl in Hm |- *.
  - destruct (IH _ _ Hm) as [Hr Hl]. rewrite Hr. simpl. split; [by destruct (m_run m)|]. exact Hl.
  - destruct ss as [|frames ss]; [discriminate|].
    destruct (main_session _ _) as [w|err]; simpl in Hm; [|discriminate].
    destruct (IH _ _ Hm) as [Hr Hl]. split; [exact Hr|].
    rewrite Hl. simpl. rewrite List.length_app. simpl. unfold clicks. lia.
  - exact (IH _ _ Hm).
Qed.

Lemma run_sessions_app a b rs ws1 rs1 ws2 rs2 :
  run_sessions a rs = Ok (ws1, rs1) -> run_sessions b rs1 = Ok (ws2, rs2) ->
  run_sessions (a ++ b) rs = Ok (ws1 ++ ws2, rs2).
Proof.
  revert rs ws1. induction a as [|fr a IH]; intros rs ws1 Ha Hb; simpl in *.
  { by injection Ha as <- <-. }
  destruct (main_session fr rs) as [w|?]; simpl in *; [|discriminate].
  destruct (run_sessions a (rng w)) as [[ws rs']|?] eqn:Hr; simpl in Ha; [|discriminate].
  injection Ha as <- ->. by rewrite (IH _ _ Hr Hb).
Qed.

Lemma clicks_cons e evs :
  clicks (e :: evs) = ((if is_click e then 1 else 0) + clicks evs)%nat.
Proof. unfold clicks. rewrite filter_cons. by destruct (is_click e). Qed.

(** One batch plays the next [clicks evs] scripts as [run_sessions]. *)
Lemma menu_events_sessions evs m ss m' ss' :
  menu_events evs m ss = Ok (m', ss') ->
  ss' = drop (clicks evs) ss /\ exists ws,
  run_sessions (take (clicks evs) ss) (m_rng m) = Ok (ws, m_rng m') /\
  m_played m' = m_played m ++ ws.
Proof.
  revert m ss. induction evs as [|e rest IH]; intros m ss Hm; simpl in Hm.
  { injection Hm as <- <-. split; [done|]. exists []. by rewrite app_nil_r. }
  rewrite clicks_cons. destruct (is_click e) eqn:Hc; simpl.
  - destruct ss as [|frames ss]; [discriminate|]. simpl.
    destruct (main_session _ _) as [w|err] eqn:Hs; simpl in Hm; [|discriminate].
    destruct (IH _ _ Hm) as (-> & ws & Hr & Hp). split; [done|].
    exists (w :: ws). simpl. destruct (is_quit e); simpl in *;
      rewrite Hs; simpl; rewrite Hr; simpl; rewrite Hp, <- app_assoc; done.
  - destruct (IH _ _ Hm) as (-> & ws & Hr & Hp). split; [done|].
    exists ws. by destruct (is_quit e).
Qed.

Lemma main_menu_sessions_from batches m ss m' :
  m_run m = true -> main_menu batches m ss = Ok m' ->
  m_run m' = negb (existsb (existsb is_quit) batches) /\ exists ws,
  run_sessions (take (menu_clicks batches) ss) (m_rng m) = Ok (ws, m_rng m') /\
  m_played m' = m_played m ++ ws.
Proof.
  revert m ss. induction batches as [|evs rest IH]; intros m ss Hrun Hm; simpl in Hm |- *.
  { injection Hm as <-. split; [done|]. exists []. by rewrite app_nil_r. }
  rewrite Hrun in Hm.
  destruct (menu_events evs m ss) as [[m1 ss1]|err] eqn:He; simpl in Hm; [|discriminate].
  destruct (menu_events_count _ _ _ _ _ He) as [Hr1 _].
  destruct (menu_events_sessions _ _ _ _ _ He) as (-> & ws1 & Hs1 & Hp1).
  rewrite Hrun in Hr1. destruct (existsb is_quit evs); simpl in Hr1 |- *.
  - destruct rest; simpl in Hm; [|rewrite Hr1 in Hm]; injection Hm as <-; (split; [done|]);
      exists ws1; by rewrite Nat.add_0_r.
  - destruct (IH m1 _ Hr1 Hm) as (Hr' & ws2 & Hs2 & Hp2). split; [done|].
    exists (ws1 ++ ws2). rewrite <- take_take_drop.
    rewrite (run_sessions_app _ _ _ _ _ _ _ Hs1 Hs2), Hp2, Hp1, app_assoc. done.
Qed.

(** C33: The menu plays its sessions one after the other, each from the
    initial state of [main] with the generator state the previous one
    left: the sessions it plays are exactly [run_sessions] on the first
    [menu_clicks batches] scripts (every click up to the batch of the
    first [QUIT], none dropped and none after it), its final generator
    state is the one they leave, and it stops exactly when a batch holds
    a [QUIT]; every session played ends in a reachable state of [main]. *)
Theorem main_menu_sessions batches rs ss m' :
  main_menu batches (menu_init rs) ss = Ok m' ->
  m_run m' = negb (existsb (existsb is_quit) batches) /\
  run_sessions (take (menu_clicks batches) ss) rs = Ok (m_played m', m_rng m') /\
  Forall reachable (m_played m').
Proof.
  intros Hm. destruct (main_menu_sessions_from batches (menu_init rs) ss m' eq_refl Hm)
    as (Hr & ws & Hs & Hp). simpl in Hp. subst ws. split; [done|]. split; [done|].
  assert (Hgen : forall m, Forall reachable (m_played m) ->
            main_menu batches m ss = Ok m' -> Forall reachable (m_played m')).
  { clear. revert ss. induction batches as [|evs rest IH]; intros ss m Hf Hm; simpl in Hm.
    { by injection Hm as <-. }
    destruct (m_run m); [|by injection Hm as <-].
    destruct (menu_events evs m ss) as [[m1 ss1]|err] eqn:He; simpl in Hm; [|discriminate].
    exact (IH ss1 m1 (menu_events_played _ _ _ _ _ He Hf) Hm). }
  exact (Hgen (menu_init rs) (Forall_nil_2 _) Hm).
Qed.

(** C34: One batch of menu events clears the menu's [run] flag exactly
    when it holds a [QUIT], and plays one session per
    [MOUSEBUTTONDOWN] of the batch, also for the clicks that follow the
    [QUIT]: the [QUIT] only takes effect when the batch is done. *)
Theorem menu_events_spec evs m ss m' ss' :
  menu_events evs m ss = Ok (m', ss') ->
  m_run m' = m_run m && negb (existsb is_quit evs) /\
  length (m_played m') = (length (m_played m) + clicks evs)%nat.
Proof. apply menu_events_count. Qed.
End MenuTheorems.

(** ** Concrete runs *)

Section Witnesses.
#[local] Existing Instance demo_assets.
#[local] Existing Instance demo_fonts.

(** A [QUIT] then a click in the same batch: the click still plays a
    session of three idle frames. *)
Local Abbreviation m_quit_click :=
  (match menu_events [QUIT; MOUSEBUTTONDOWN] (menu_init []) [repeat no_input 3] with
   | Ok (m, _) => m | Err _ => menu_init [] end).

Lemma menu_events_spec_witness :
  m_run m_quit_click = m_run (menu_init []) && negb (existsb is_quit [QUIT; MOUSEBUTTONDOWN]) /\
  length (m_played m_quit_click) =
    (length (m_played (menu_init [])) + clicks [QUIT; MOUSEBUTTONDOWN])%nat.
Proof.
  apply (menu_events_spec [QUIT; MOUSEBUTTONDOWN] (menu_init []) [repeat no_input 3]
           m_quit_click []).
  vm_compute. reflexivity.
Defined.

Local Abbreviation m_two :=
  (match main_menu [[MOUSEBUTTONDOWN]; [MOUSEBUTTONDOWN; QUIT]] (menu_init [])
           [repeat no_input 3; repeat no_input 5] with
   | Ok m => m | Err _ => menu_init [] end).

Lemma main_menu_sessions_witness :
  m_run m_two = negb (existsb (existsb is_quit) [[MOUSEBUTTONDOWN]; [MOUSEBUTTONDOWN; QUIT]]) /\
  run_sessions (take (menu_clicks [[MOUSEBUTTONDOWN]; [MOUSEBUTTONDOWN; QUIT]])
                     [repeat no_input 3; repeat no_input 5]) [] = Ok (m_played m_two, m_rng m_two) /\
  Forall reachable (m_played m_two).
Proof.
  apply (main_menu_sessions [[MOUSEBUTTONDOWN]; [MOUSEBUTTONDOWN; QUIT]] []
           [repeat no_input 3; repeat no_input 5]).
  vm_compute. reflexivity.
Defined.
End Witnesses.

End MainMenu.
